(** * A shallow embedding of webserver.cpp

    The development follows the source file top to bottom:
    the fragments of the C++ standard library the server relies on
    (character classes, [std::istringstream] with its state bits,
    [std::getline], [operator>>], [read], [std::stoi], [std::to_string]),
    then [HTTPRequest], [HTTPResponse] and [WebServer].

    Conventions:
    - a [std::string] is a list of 8-bit characters ([list ascii]);
    - [std::unordered_map<std::string, T>] is a finite map [gmap];
      its iteration order, which C++ leaves unspecified, is a parameter
      of the development ([iteration_order]);
    - member functions that mutate [*this] take the object and return
      the mutated object; a member function that can throw returns the
      object as it is at the point of the throw together with a
      [completion]. *)

From Stdlib Require Import Ascii String ZArith Lia.
From stdpp Require Import gmap strings list fin_maps.

Local Open Scope Z_scope.

(** ** Strings and characters *)

Abbreviation std_string := (list ascii) (only parsing).

(** String literals of the source. *)
Definition lit (s : string) : std_string := list_ascii_of_string s.

Definition CR : ascii := "013"%char.
Definition LF : ascii := "010"%char.
Definition TAB : ascii := "009"%char.
Definition NUL : ascii := "000"%char.
Definition SP : ascii := " "%char.
Definition COLON : ascii := ":"%char.
Definition DQUOTE : ascii := "034"%char.

(** [std::isspace] in the "C" locale: space, \t, \n, \v, \f, \r. *)
Definition isspace (c : ascii) : bool :=
  let n := nat_of_ascii c in
  ((9 <=? n)%nat && (n <=? 13)%nat) || (n =? 32)%nat.

Definition isdigit (c : ascii) : bool :=
  let n := nat_of_ascii c in (48 <=? n)%nat && (n <=? 57)%nat.

Definition digit_value (c : ascii) : Z := Z.of_nat (nat_of_ascii c) - 48.

Arguments isspace : simpl never.
Arguments isdigit : simpl never.

(** ** Exceptions and completions *)

Inductive exception : Type :=
  | invalid_argument   (* std::stoi: no conversion could be performed *)
  | out_of_range       (* std::stoi: value does not fit an int *)
  | length_error       (* std::vector: requested size exceeds max_size() *)
  | runtime_error (what : std_string).

Inductive completion : Type :=
  | Returned
  | Thrown (e : exception).

(** ** [std::istringstream] *)

Record istringstream : Type := mk_istringstream {
  rdbuf : std_string;      (* characters not yet extracted *)
  eofbit : bool;
  failbit : bool
}.

Definition istringstream_ctor (s : std_string) : istringstream :=
  {| rdbuf := s; eofbit := false; failbit := false |}.

Definition good (strm : istringstream) : bool :=
  negb (eofbit strm) && negb (failbit strm).

(** [operator bool] of a stream is [!fail()]. *)
Definition fail (strm : istringstream) : bool := failbit strm.

Definition setstate_fail (strm : istringstream) : istringstream :=
  {| rdbuf := rdbuf strm; eofbit := eofbit strm; failbit := true |}.

(** Characters up to the first [delim] (exclusive), and what follows the
    delimiter; [None] for the second component when no delimiter occurs. *)
Fixpoint split_delim (delim : ascii) (s : std_string)
  : std_string * option std_string :=
  match s with
  | [] => ([], None)
  | c :: s' =>
      if Ascii.eqb c delim then ([], Some s')
      else let '(l, r) := split_delim delim s' in (c :: l, r)
  end.

(** [std::getline(strm, str)]: when the sentry fails the string is left
    untouched and [failbit] is set; otherwise the string is erased and
    characters are extracted up to and including the next newline, or up
    to the end of the stream, which sets [eofbit]; extracting nothing at
    all sets [failbit]. *)
Definition getline (strm : istringstream) (str : std_string)
  : istringstream * std_string :=
  if good strm then
    match rdbuf strm with
    | [] => ({| rdbuf := []; eofbit := true; failbit := true |}, [])
    | _ :: _ =>
        match split_delim LF (rdbuf strm) with
        | (l, Some r) => ({| rdbuf := r; eofbit := false; failbit := false |}, l)
        | (l, None) => ({| rdbuf := []; eofbit := true; failbit := false |}, l)
        end
    end
  else (setstate_fail strm, str).

Fixpoint skipws (s : std_string) : std_string :=
  match s with
  | [] => []
  | c :: s' => if isspace c then skipws s' else s
  end.

(** The longest whitespace-free prefix, and the rest. *)
Fixpoint span_word (s : std_string) : std_string * std_string :=
  match s with
  | [] => ([], [])
  | c :: s' =>
      if isspace c then ([], s)
      else let '(w, r) := span_word s' in (c :: w, r)
  end.

(** [strm >> str]: the sentry skips leading whitespace; if it fails (stream
    not good, or only whitespace left) the string is left untouched. *)
Definition extract_string (strm : istringstream) (str : std_string)
  : istringstream * std_string :=
  if good strm then
    match skipws (rdbuf strm) with
    | [] => ({| rdbuf := []; eofbit := true; failbit := true |}, str)
    | (_ :: _) as s =>
        let '(w, r) := span_word s in
        ({| rdbuf := r; eofbit := bool_decide (r = []); failbit := false |}, w)
    end
  else (setstate_fail strm, str).

(** [strm.read(buf, n)]: the characters stored (at most [n]); a short read
    sets [eofbit] and [failbit]. *)
Definition istream_read (strm : istringstream) (n : nat)
  : istringstream * std_string :=
  if good strm then
    let got := take n (rdbuf strm) in
    let short := bool_decide (length got < n)%nat in
    ({| rdbuf := drop n (rdbuf strm); eofbit := short; failbit := short |}, got)
  else (setstate_fail strm, []).

(** Storing [got] at the start of the array [buf]. *)
Definition store_prefix (got buf : std_string) : std_string :=
  got ++ drop (length got) buf.

(** ** [std::stoi] and [std::to_string] *)

Definition INT_MAX : Z := 2147483647.
Definition INT_MIN : Z := -2147483648.

Fixpoint span_digits (s : std_string) : std_string * std_string :=
  match s with
  | [] => ([], [])
  | c :: s' =>
      if isdigit c then let '(d, r) := span_digits s' in (c :: d, r)
      else ([], s)
  end.

Definition decimal_value (ds : std_string) : Z :=
  fold_left (fun acc c => 10 * acc + digit_value c) ds 0.

(** [std::stoi(str)]: [strtol] in base 10 on the characters of [str]:
    leading whitespace, an optional sign, then the longest run of digits;
    what follows the digits is ignored. *)
Definition stoi (str : std_string) : exception + Z :=
  let s1 := skipws str in
  let '(negative, s2) :=
    match s1 with
    | c :: t =>
        if Ascii.eqb c "-" then (true, t)
        else if Ascii.eqb c "+" then (false, t)
        else (false, s1)
    | [] => (false, s1)
    end in
  match fst (span_digits s2) with
  | [] => inl invalid_argument
  | ds =>
      let v := if negative then - decimal_value ds else decimal_value ds in
      if (INT_MIN <=? v) && (v <=? INT_MAX) then inr v else inl out_of_range
  end.

Definition digit_char (d : Z) : ascii := ascii_of_nat (Z.to_nat (48 + d)).

Fixpoint to_digits (fuel : nat) (n : Z) (acc : std_string) : std_string :=
  match fuel with
  | O => acc
  | S fuel' =>
      let acc' := digit_char (n mod 10) :: acc in
      if n / 10 =? 0 then acc' else to_digits fuel' (n / 10) acc'
  end.

(** Decimal rendering of an integer, as done by [std::to_string] and by
    [operator<<] on an [int]. A number has no more decimal digits than
    binary ones, which bounds the loop. *)
Definition to_string (n : Z) : std_string :=
  let digits := to_digits (S (Z.to_nat (Z.log2 (Z.abs n)))) (Z.abs n) [] in
  if n <? 0 then "-"%char :: digits else digits.

(** ** [class HTTPRequest] *)

Module HTTPRequest.

Record t : Type := mk {
  method : std_string;
  path : std_string;
  version : std_string;
  headers : gmap (list ascii) (list ascii);
  body : std_string
}.

(** The implicitly defined default constructor. *)
Definition ctor : t :=
  {| method := []; path := []; version := []; headers := ∅; body := [] |}.

(** [line.find(':')] *)
Fixpoint find_char (c : ascii) (s : std_string) : option nat :=
  match s with
  | [] => None
  | x :: s' => if Ascii.eqb x c then Some O else S <$> find_char c s'
  end.

(** [if (line.back() == '\r') line.pop_back();] on a non-empty line. *)
Definition chomp_cr (line : std_string) : std_string :=
  match last line with
  | Some c => if Ascii.eqb c CR then removelast line else line
  | None => line
  end.

(** [while (!value.empty() && (value[0] == ' ' || value[0] == '\t'))
      value.erase(0, 1);] *)
Fixpoint erase_leading_blanks (value : std_string) : std_string :=
  match value with
  | [] => []
  | c :: value' =>
      if Ascii.eqb c SP || Ascii.eqb c TAB then erase_leading_blanks value'
      else value
  end.

(** Body of the header loop, lines 45-57. *)
Definition store_header (line : std_string)
    (hs : gmap (list ascii) (list ascii)) : gmap (list ascii) (list ascii) :=
  match find_char COLON line with
  | Some pos =>
      let key := take pos line in
      let value := drop (S pos) line in
      <[key := erase_leading_blanks value]> hs
  | None => hs
  end.

(** Lines 38-41: the request line. *)
Definition parse_request_line (iss : istringstream) (line : std_string)
    (this : t) : istringstream * std_string * t :=
  let '(iss1, line1) := getline iss line in
  if fail iss1 then (iss1, line1, this)
  else
    let line_stream := istringstream_ctor line1 in
    let '(ls1, m) := extract_string line_stream (method this) in
    let '(ls2, p) := extract_string ls1 (path this) in
    let '(_, v) := extract_string ls2 (version this) in
    (iss1, line1,
     {| method := m; path := p; version := v;
        headers := headers this; body := body this |}).

(** Lines 44-58: the header loop. Every iteration that continues has
    extracted at least one character, so [fuel] above the number of
    characters left is never exhausted (see [header_loop_fuel]). *)
Fixpoint header_loop (fuel : nat) (iss : istringstream) (line : std_string)
    (hs : gmap (list ascii) (list ascii))
  : istringstream * gmap (list ascii) (list ascii) :=
  match fuel with
  | O => (iss, hs)
  | S fuel' =>
      let '(iss1, line1) := getline iss line in
      if negb (fail iss1) && negb (bool_decide (line1 = []))
         && negb (bool_decide (line1 = [CR]))
      then
        let line2 := chomp_cr line1 in
        header_loop fuel' iss1 line2 (store_header line2 hs)
      else (iss1, hs)
  end.

Definition parse_headers (iss : istringstream) (line : std_string)
    (hs : gmap (list ascii) (list ascii)) :=
  header_loop (S (length (rdbuf iss))) iss line hs.

(** [std::vector<char> body_buffer(content_length)]: the [int] is
    converted to [size_t]; a negative value becomes a size above
    [max_size()] and the constructor throws, otherwise the vector holds
    [content_length] zero characters (the allocation itself is taken to
    succeed). *)
Definition vector_char_ctor (n : Z) : exception + std_string :=
  if n <? 0 then inl length_error else inr (replicate (Z.to_nat n) NUL).

(** Lines 61-66: the body. *)
Definition parse_body (iss : istringstream) (this : t)
  : t * completion :=
  match headers this !! lit "Content-Length" with
  | None => (this, Returned)
  | Some v =>
      match stoi v with
      | inl e => (this, Thrown e)
      | inr content_length =>
          match vector_char_ctor content_length with
          | inl e => (this, Thrown e)
          | inr body_buffer =>
              let n := Z.to_nat content_length in
              let '(_, got) := istream_read iss n in
              let body_buffer' := store_prefix got body_buffer in
              ({| method := method this; path := path this;
                  version := version this; headers := headers this;
                  body := take n body_buffer' |}, Returned)
          end
      end
  end.

(** [HTTPRequest::parse]. *)
Definition parse (request_str : std_string) (this : t)
  : t * completion :=
  let iss := istringstream_ctor request_str in
  let '(iss1, line, this1) := parse_request_line iss [] this in
  let '(iss2, hs) := parse_headers iss1 line (headers this1) in
  let this2 :=
    {| method := method this1; path := path this1; version := version this1;
       headers := hs; body := body this1 |} in
  parse_body iss2 this2.

End HTTPRequest.

(** ** Iteration over a [std::unordered_map]

    The order in which a range-for visits the entries is unspecified;
    every entry is visited once. The development is parametric in it.
    (The order is taken as a function of the contents of the map; a
    statement about one traversal holds for whatever order the library
    picks for that traversal.) *)

Class UnorderedMapOrder : Type := {
  iteration_order :
    gmap (list ascii) (list ascii) → list (list ascii * list ascii);
  iteration_order_perm :
    ∀ m, iteration_order m ≡ₚ map_to_list m
}.

(** ** [class HTTPResponse] *)

Module HTTPResponse.

Record t : Type := mk {
  version : std_string;
  status_code : Z;
  status_message : std_string;
  headers : gmap (list ascii) (list ascii);
  body : std_string
}.

(** Line 78. *)
Definition ctor : t :=
  {| version := lit "HTTP/1.1"; status_code := 200;
     status_message := lit "OK"; headers := ∅; body := [] |}.

Definition set_status_code (c : Z) (this : t) : t :=
  {| version := version this; status_code := c;
     status_message := status_message this; headers := headers this;
     body := body this |}.

Definition set_status_message (m : std_string) (this : t) : t :=
  {| version := version this; status_code := status_code this;
     status_message := m; headers := headers this; body := body this |}.

Definition set_body (b : std_string) (this : t) : t :=
  {| version := version this; status_code := status_code this;
     status_message := status_message this; headers := headers this;
     body := b |}.

(** [headers[key] = value;] *)
Definition set_header (key value : std_string) (this : t) : t :=
  {| version := version this; status_code := status_code this;
     status_message := status_message this;
     headers := <[key := value]> (headers this); body := body this |}.

(** Lines 80-84. *)
Definition setContent (content content_type : std_string) (this : t) : t :=
  let this1 := set_body content this in
  let this2 := set_header (lit "Content-Type") content_type this1 in
  set_header (lit "Content-Length")
             (to_string (Z.of_nat (length (body this2)))) this2.

(** The default argument of [setContent]. *)
Definition default_content_type : std_string := lit "text/html".

Definition CRLF : std_string := [CR; LF].

(** One round of the loop of line 90. *)
Definition put_header (oss : std_string) (header : list ascii * list ascii)
  : std_string :=
  oss ++ header.1 ++ lit ": " ++ header.2 ++ CRLF.

(** Lines 86-96; [oss] is the content of the output string stream. *)
Definition toString `{UnorderedMapOrder} (this : t) : std_string :=
  let oss := [] in
  let oss := oss ++ version this ++ lit " " ++ to_string (status_code this)
                 ++ lit " " ++ status_message this ++ CRLF in
  let oss := fold_left put_header (iteration_order (headers this)) oss in
  oss ++ CRLF ++ body this.

End HTTPResponse.

(** ** [class WebServer] *)

Module WebServer.

(** The files the process can open: [fs file_path] is the content of the
    file when [std::ifstream file(file_path, std::ios::binary)] opens. *)
Definition filesystem : Type := list ascii → option (list ascii).

(** A route handler,
    [std::function<void(const HTTPRequest&, HTTPResponse&)>]; the closures
    of this program read nothing but the file system. *)
Abbreviation handler :=
  (filesystem → HTTPRequest.t → HTTPResponse.t → HTTPResponse.t).

Definition INVALID_SOCKET : Z := -1.
Definition SOCKET_ERROR : Z := -1.

Record t : Type := mk {
  server_socket : Z;
  port : Z;
  running : bool;
  routes : gmap (list ascii) handler
}.

(** Line 142; [server_socket] has no initialiser. *)
Definition ctor (port0 : Z) (indeterminate : Z) : t :=
  {| server_socket := indeterminate; port := port0; running := false;
     routes := ∅ |}.

Definition set_server_socket (s : Z) (this : t) : t :=
  {| server_socket := s; port := port this; running := running this;
     routes := routes this |}.

Definition set_running (b : bool) (this : t) : t :=
  {| server_socket := server_socket this; port := port this; running := b;
     routes := routes this |}.

(** Lines 151-153. *)
Definition addRoute (path : std_string) (h : handler) (this : t) : t :=
  {| server_socket := server_socket this; port := port this;
     running := running this; routes := <[path := h]> (routes this) |}.

(** Lines 165-168. *)
Definition hasExtension (str ext : std_string) : bool :=
  if (length str <? length ext)%nat then false
  else bool_decide
         (take (length ext) (drop (length str - length ext)%nat str) = ext).

(** Lines 164-184. *)
Definition content_type_of (file_path : std_string) : std_string :=
  if hasExtension file_path (lit ".html") || hasExtension file_path (lit ".htm")
  then lit "text/html"
  else if hasExtension file_path (lit ".css") then lit "text/css"
  else if hasExtension file_path (lit ".js") then lit "application/javascript"
  else if hasExtension file_path (lit ".json") then lit "application/json"
  else if hasExtension file_path (lit ".png") then lit "image/png"
  else if hasExtension file_path (lit ".jpg")
          || hasExtension file_path (lit ".jpeg")
  then lit "image/jpeg"
  else if hasExtension file_path (lit ".gif") then lit "image/gif"
  else lit "text/plain".

Definition not_found_page : std_string :=
  lit "<html><body><h1>404 Not Found</h1></body></html>".

(** Lines 188-190 and 231-233. *)
Definition respond_not_found (res : HTTPResponse.t) : HTTPResponse.t :=
  let res := HTTPResponse.set_status_code 404 res in
  let res := HTTPResponse.set_status_message (lit "Not Found") res in
  HTTPResponse.setContent not_found_page HTTPResponse.default_content_type res.

(** The closure built at lines 156-192. *)
Definition static_file_handler (file_path : std_string) : handler :=
  fun fs req res =>
    match fs file_path with
    | Some buffer =>
        HTTPResponse.setContent buffer (content_type_of file_path) res
    | None => respond_not_found res
    end.

(** Lines 155-193. *)
Definition addStaticFileRoute (path file_path : std_string) (this : t) : t :=
  addRoute path (static_file_handler file_path) this.

(** *** The operating system, as seen by [start] *)

(** Results of the calls made by [initializeSocket]. *)
Record socket_setup : Type := {
  socket_result : Z;
  setsockopt_result : Z;
  bind_result : Z;
  listen_result : Z
}.

(** One return of [accept]: the socket (or [INVALID_SOCKET]), the peer
    address as printed by [inet_ntop], what [recv] finds ([None]: an
    error, return value -1; [Some q]: the characters [q] are queued, the
    empty queue being an orderly shutdown), and the file system at the
    time the request is handled. *)
Record accepted : Type := {
  client_socket : Z;
  client_ip : std_string;
  pending : option (list ascii);
  files : filesystem
}.

Inductive event : Type :=
  | EvStarted (port : Z)                      (* line 138 *)
  | EvAcceptFailed                            (* line 206 *)
  | EvClientConnected (ip : std_string)       (* line 212 *)
  | EvRecv (sock : Z) (len : Z)               (* line 217 *)
  | EvHandler (path : std_string)             (* line 228 *)
  | EvSend (sock : Z) (data : std_string)     (* line 238 *)
  | EvClose (sock : Z)                        (* lines 241, 248 *)
  | EvServerError (e : exception).            (* line 244 *)

(** Lines 106-139. *)
Definition initializeSocket (os : socket_setup) (this : t)
  : t * list event * completion :=
  let this := set_server_socket (socket_result os) this in
  if server_socket this =? INVALID_SOCKET
  then (this, [], Thrown (runtime_error (lit "Could not create socket")))
  else if setsockopt_result os =? SOCKET_ERROR
  then (this, [], Thrown (runtime_error (lit "setsockopt failed")))
  else if bind_result os =? SOCKET_ERROR
  then (this, [], Thrown (runtime_error (lit "Bind failed")))
  else if listen_result os =? SOCKET_ERROR
  then (this, [], Thrown (runtime_error (lit "Listen failed")))
  else (this, [EvStarted (port this)], Returned).

Definition buffer_size : Z := 8192.

(** [recv(client_socket, buffer, len, 0)]: return value and the
    characters stored into the buffer. *)
Definition recv (c : accepted) (len : Z) : Z * std_string :=
  match pending c with
  | None => (-1, [])
  | Some q =>
      let got := take (Z.to_nat len) q in (Z.of_nat (length got), got)
  end.

(** Lines 227-234. *)
Definition dispatch (rs : gmap (list ascii) handler) (fs : filesystem)
    (request : HTTPRequest.t) (response : HTTPResponse.t)
  : HTTPResponse.t * list event :=
  match rs !! HTTPRequest.path request with
  | Some h => (h fs request response, [EvHandler (HTTPRequest.path request)])
  | None => (respond_not_found response, [])
  end.

(** Lines 215-217: return value of [recv] and the buffer after it. *)
Definition receive (c : accepted) : Z * std_string :=
  let buffer := replicate (Z.to_nat buffer_size) NUL in
  let '(bytes_received, got) := recv c (buffer_size - 1) in
  (bytes_received, store_prefix got buffer).

(** Line 220: [std::string request_str(buffer, bytes_received)]. *)
Definition request_str_of (c : accepted) : std_string :=
  let '(bytes_received, buffer) := receive c in
  take (Z.to_nat bytes_received) buffer.

(** Lines 214-241: what is done with one accepted connection. *)
Definition serve `{UnorderedMapOrder} (rs : gmap (list ascii) handler)
    (c : accepted) : list event * completion :=
  let '(bytes_received, buffer) := receive c in
  let ev_recv := EvRecv (client_socket c) (buffer_size - 1) in
  if 0 <? bytes_received then
    let request_str := take (Z.to_nat bytes_received) buffer in
    match HTTPRequest.parse request_str HTTPRequest.ctor with
    | (_, Thrown e) => ([ev_recv], Thrown e)
    | (request, Returned) =>
        let '(response, evs) :=
          dispatch rs (files c) request HTTPResponse.ctor in
        let response_str := HTTPResponse.toString response in
        (ev_recv :: evs ++ [EvSend (client_socket c) response_str;
                            EvClose (client_socket c)], Returned)
    end
  else ([ev_recv; EvClose (client_socket c)], Returned).

(** Lines 200-242: the accept loop, run against the successive returns of
    [accept]. [running] stays true throughout (only [stop] clears it), so
    the loop leaves only by an exception; when the script is used up the
    loop is blocked in [accept]. *)
Inductive loop_state : Type :=
  | Accepting
  | Escaped (e : exception).

Fixpoint accept_loop `{UnorderedMapOrder} (rs : gmap (list ascii) handler)
    (script : list accepted) : list event * loop_state :=
  match script with
  | [] => ([], Accepting)
  | c :: script' =>
      if client_socket c =? INVALID_SOCKET then
        let '(evs, st) := accept_loop rs script' in
        (EvAcceptFailed :: evs, st)
      else
        match serve rs c with
        | (evs1, Returned) =>
            let '(evs, st) := accept_loop rs script' in
            (EvClientConnected (client_ip c) :: evs1 ++ evs, st)
        | (evs1, Thrown e) =>
            (EvClientConnected (client_ip c) :: evs1, Escaped e)
        end
  end.

(** Lines 247-250. *)
Definition close_server_socket (this : t) : t * list event :=
  if server_socket this =? INVALID_SOCKET then (this, [])
  else (set_server_socket INVALID_SOCKET this, [EvClose (server_socket this)]).

(** Lines 195-251. The second component is [None] while [start] has not
    returned (the loop is waiting in [accept]) and the final object once
    it has. *)
Definition start `{UnorderedMapOrder} (os : socket_setup)
    (script : list accepted) (this : t) : list event * option t :=
  match initializeSocket os this with
  | (this1, evs0, Thrown e) =>
      let '(this2, evs2) := close_server_socket this1 in
      (evs0 ++ [EvServerError e] ++ evs2, Some this2)
  | (this1, evs0, Returned) =>
      let this1 := set_running true this1 in
      match accept_loop (routes this1) script with
      | (evs1, Accepting) => (evs0 ++ evs1, None)
      | (evs1, Escaped e) =>
          let '(this2, evs2) := close_server_socket this1 in
          (evs0 ++ evs1 ++ [EvServerError e] ++ evs2, Some this2)
      end
  end.

(** Lines 253-259. *)
Definition stop (this : t) : t * list event :=
  close_server_socket (set_running false this).

End WebServer.

(** The routes registered by [main], lines 268-277. *)
Definition main_routes (this : WebServer.t) : WebServer.t :=
  let this :=
    WebServer.addRoute (lit "/")
      (fun _ _ res =>
         HTTPResponse.setContent
           (lit "<html><body><h1>Hello, World!</h1><p>Welcome to my C++ Web Server</p></body></html>")
           HTTPResponse.default_content_type res) this in
  let this :=
    WebServer.addRoute (lit "/api/data")
      (fun _ _ res =>
         HTTPResponse.setContent
           (lit "{" ++ [DQUOTE] ++ lit "message" ++ [DQUOTE] ++ lit ": "
            ++ [DQUOTE] ++ lit "This is JSON data" ++ [DQUOTE] ++ lit "}")
           (lit "application/json") res) this in
  WebServer.addStaticFileRoute (lit "/index.html") (lit "public/index.html")
                               this.

(** The traversal order of [map_to_list] is one admissible order. *)
#[export] Instance canonical_order : UnorderedMapOrder :=
  {| iteration_order := map_to_list; iteration_order_perm := fun m => reflexivity _ |}.

(** * Specification-side vocabulary *)

(** [needle] occurs in [hay] as a contiguous run of characters. *)
Definition contains (needle hay : std_string) : Prop :=
  ∃ pre post, hay = pre ++ needle ++ post.

(** A line of a header block as [std::getline] must see it: free of
    newlines, and not one of the two forms that end the block. *)
Definition header_line_ok (l : std_string) : Prop :=
  (LF ∉ l) ∧ l ≠ [] ∧ l ≠ [CR].

(** The request line, the header lines and the blank line that closes
    them, each ended by a newline. *)
Definition header_block (request_line : std_string)
    (header_lines : list (list ascii)) (blank : std_string) : std_string :=
  request_line ++ [LF]
  ++ concat (map (fun l => l ++ [LF]) header_lines)
  ++ blank ++ [LF].

(** The headers stored for a sequence of header lines. *)
Definition headers_of_lines (header_lines : list (list ascii))
  : gmap (list ascii) (list ascii) :=
  foldl (fun hs l => HTTPRequest.store_header (HTTPRequest.chomp_cr l) hs)
        ∅ header_lines.

(** A token of the request line: non-empty and free of whitespace. *)
Definition word (w : std_string) : Prop :=
  w ≠ [] ∧ Forall (fun c => isspace c = false) w.

(** What separates two tokens on one line: a non-empty run of whitespace
    other than the newline. *)
Definition blank_run (ws : std_string) : Prop :=
  ws ≠ [] ∧ Forall (fun c => isspace c = true ∧ c ≠ LF) ws.

(** A header name holds no colon (the first colon ends it) and no
    newline. *)
Definition header_name_ok (k : std_string) : Prop :=
  (COLON ∉ k) ∧ (LF ∉ k).

(** A header value holds no newline, does not begin with a space or a
    tab (leading blanks belong to the separator) and does not end with a
    carriage return (which belongs to the line ending). *)
Definition header_value_ok (v : std_string) : Prop :=
  (LF ∉ v) ∧ HTTPRequest.erase_leading_blanks v = v ∧ last v ≠ Some CR.

(** Line endings: CRLF, or a bare LF. *)
Definition eol (crlf : bool) : std_string := if crlf then [CR; LF] else [LF].

(** The header line written for a name and a value. *)
Definition header_text (crlf : bool) (kv : list ascii * list ascii)
  : std_string :=
  kv.1 ++ lit ": " ++ kv.2 ++ eol crlf.

(** The text of a request: request line, header lines, blank line. *)
Definition request_text (crlf : bool) (m ws1 p ws2 v : std_string)
    (hs : list (list ascii * list ascii)) : std_string :=
  m ++ ws1 ++ p ++ ws2 ++ v ++ eol crlf
  ++ concat (map (header_text crlf) hs)
  ++ eol crlf.

(** The mapping a sequence of headers denotes: later entries overwrite
    earlier ones with the same name. *)
Definition header_map (hs : list (list ascii * list ascii))
  : gmap (list ascii) (list ascii) :=
  foldl (fun m kv => <[kv.1 := kv.2]> m) ∅ hs.

(** [s] is empty or begins with whitespace: a word ends before it. *)
Definition word_end (s : std_string) : Prop :=
  match s with [] => True | c :: _ => isspace c = true end.

(** The carriage return that precedes the newline of a CRLF ending. *)
Definition cr_of (crlf : bool) : std_string := if crlf then [CR] else [].

(** The header lines of a text, as [std::getline] delivers them. *)
Definition lines_of (crlf : bool)
    (hs : list (list ascii * list ascii)) : list (list ascii) :=
  map (fun kv => kv.1 ++ lit ": " ++ kv.2 ++ cr_of crlf) hs.

(** The text of one header of a response. *)
Definition header_row (kv : list ascii * list ascii) : std_string :=
  kv.1 ++ [COLON; SP] ++ kv.2 ++ HTTPResponse.CRLF.

(** The status line of a response. *)
Definition status_line (r : HTTPResponse.t) : std_string :=
  HTTPResponse.version r ++ [SP] ++ to_string (HTTPResponse.status_code r)
  ++ [SP] ++ HTTPResponse.status_message r ++ HTTPResponse.CRLF.

(** The fixed table of content types, by file name suffix. *)
Definition content_type_table : list (list ascii * list ascii) :=
  [ (lit ".html", lit "text/html"); (lit ".htm", lit "text/html");
    (lit ".css", lit "text/css"); (lit ".js", lit "application/javascript");
    (lit ".json", lit "application/json"); (lit ".png", lit "image/png");
    (lit ".jpg", lit "image/jpeg"); (lit ".jpeg", lit "image/jpeg");
    (lit ".gif", lit "image/gif") ].

(** The connection [c] with another receive queue. *)
Definition with_pending (q : option (list ascii)) (c : WebServer.accepted)
  : WebServer.accepted :=
  {| WebServer.client_socket := WebServer.client_socket c;
     WebServer.client_ip := WebServer.client_ip c;
     WebServer.pending := q;
     WebServer.files := WebServer.files c |}.

(** The most characters one [recv] of the server can deliver (8191). *)
Definition recv_limit : nat := Z.to_nat (WebServer.buffer_size - 1).

(** Every call of [initializeSocket] succeeds. *)
Definition setup_ok (os : WebServer.socket_setup) : Prop :=
  WebServer.socket_result os ≠ WebServer.INVALID_SOCKET
  ∧ WebServer.setsockopt_result os ≠ WebServer.SOCKET_ERROR
  ∧ WebServer.bind_result os ≠ WebServer.SOCKET_ERROR
  ∧ WebServer.listen_result os ≠ WebServer.SOCKET_ERROR.

(** Sample connections and a sample setup, used to run the model. *)
Definition sample_setup : WebServer.socket_setup :=
  {| WebServer.socket_result := 3; WebServer.setsockopt_result := 0;
     WebServer.bind_result := 0; WebServer.listen_result := 0 |}.

Definition sample_connection (sock : Z) (q : option (list ascii))
  : WebServer.accepted :=
  {| WebServer.client_socket := sock;
     WebServer.client_ip := lit "127.0.0.1";
     WebServer.pending := q;
     WebServer.files := fun _ => None |}.

(** A request of exactly 8192 characters: [GET /aaa...a]. *)
Definition request_of_8192 : std_string :=
  lit "GET /" ++ replicate (Z.to_nat 8187) "a"%char.

(** A request with a [Content-Length] that is not a number. *)
Definition request_bad_length : std_string :=
  lit "POST /api/data HTTP/1.1" ++ [CR; LF]
  ++ lit "Content-Length: abc" ++ [CR; LF; CR; LF].

Definition request_root : std_string :=
  lit "GET / HTTP/1.1" ++ [CR; LF; CR; LF].

(** A run of whitespace other than the newline, possibly empty. *)
Definition whitespace (ws : std_string) : Prop :=
  Forall (fun c => isspace c = true ∧ c ≠ LF) ws.

(** A line that holds at least one word: leading whitespace, the first
    word, further words each behind a separator, trailing whitespace. *)
Definition words_line (lead w0 : std_string)
    (more : list (list ascii * list ascii)) (tail : std_string)
  : std_string :=
  lead ++ w0 ++ concat (map (fun sw => sw.1 ++ sw.2) more) ++ tail.

(** What lines 38-41 make of a request line on a fresh request. *)
Definition request_line_fields (rl : std_string) : HTTPRequest.t :=
  (HTTPRequest.parse_request_line (istringstream_ctor (rl ++ [LF])) []
                                  HTTPRequest.ctor).2.

(** The state of a stream on which an extraction has failed at the end
    of its characters. *)
Definition stream_at_eof : istringstream :=
  {| rdbuf := []; eofbit := true; failbit := true |}.

(** The [Content-Length] header of a response states the length of its
    body, as [setContent] leaves it. *)
Definition content_length_consistent (r : HTTPResponse.t) : Prop :=
  HTTPResponse.headers r !! lit "Content-Length"
  = Some (to_string (Z.of_nat (length (HTTPResponse.body r)))).

(** A handler that leaves the response with a consistent
    [Content-Length], whatever it is given. *)
Definition handler_sets_length (h : WebServer.handler) : Prop :=
  ∀ fs req res, content_length_consistent (h fs req res).

(** The report of a failed [accept]. *)
Definition is_accept_failed (e : WebServer.event) : bool :=
  match e with WebServer.EvAcceptFailed => true | _ => false end.

(** [accept] returned a socket. *)
Definition accepted_ok (c : WebServer.accepted) : Prop :=
  WebServer.client_socket c ≠ WebServer.INVALID_SOCKET.

(** In a trace, every [send] is directly followed by the [close] of the
    same socket. *)
Fixpoint send_then_close (evs : list WebServer.event) : Prop :=
  match evs with
  | [] => True
  | WebServer.EvSend s _ :: rest =>
      match rest with
      | WebServer.EvClose s' :: _ => s' = s
      | _ => False
      end ∧ send_then_close rest
  | _ :: rest => send_then_close rest
  end.

(** The messages of the exceptions of [initializeSocket]. *)
Definition setup_errors : list (list ascii) :=
  [lit "Could not create socket"; lit "setsockopt failed";
   lit "Bind failed"; lit "Listen failed"].

(** Both sides of an equation between concatenations, brought to
    right-nested form. *)
Ltac app_norm :=
  repeat first [rewrite <- app_assoc | rewrite <- app_comm_cons];
  cbn [app].

(** Closed decidable side conditions, by evaluation. *)
Ltac by_evaluation :=
  first [ reflexivity
        | apply (bool_decide_unpack _); vm_compute; exact I ].

(** * The stream primitives *)

Section stream_facts.

Implicit Types (l r s str line : list ascii).

Lemma split_delim_found d l r :
  d ∉ l → split_delim d (l ++ d :: r) = (l, Some r).
Proof.
  induction l as [|c l IH]; intros Hd; simpl.
  - by rewrite Ascii.eqb_refl.
  - apply not_elem_of_cons in Hd as [Hc Hl].
    destruct (Ascii.eqb_spec c d) as [->|_]; [done|].
    by rewrite IH.
Qed.

Lemma split_delim_absent d l :
  d ∉ l → split_delim d l = (l, None).
Proof.
  induction l as [|c l IH]; intros Hd; simpl; [done|].
  apply not_elem_of_cons in Hd as [Hc Hl].
  destruct (Ascii.eqb_spec c d) as [->|_]; [done|].
  by rewrite IH.
Qed.

Lemma split_delim_shorter d s l r :
  split_delim d s = (l, Some r) → (length r < length s)%nat.
Proof.
  revert l; induction s as [|c s IH]; intros l; simpl; [done|].
  destruct (Ascii.eqb c d).
  - intros [= _ ->]. lia.
  - destruct (split_delim d s) as [l' r'] eqn:E.
    intros [= _ ->]. specialize (IH _ eq_refl). lia.
Qed.

(** A good stream holding a complete line hands it over and stays good. *)
Lemma getline_line l r str :
  LF ∉ l →
  getline (istringstream_ctor (l ++ LF :: r)) str = (istringstream_ctor r, l).
Proof.
  intros Hl. unfold getline; simpl.
  rewrite (split_delim_found _ _ _ Hl).
  by destruct l.
Qed.

(** The last line of a stream, when no newline ends it. *)
Lemma getline_last l str :
  LF ∉ l → l ≠ [] →
  getline (istringstream_ctor l) str
  = ({| rdbuf := []; eofbit := true; failbit := false |}, l).
Proof.
  intros Hl Hne. unfold getline; simpl.
  rewrite (split_delim_absent _ _ Hl).
  by destruct l.
Qed.

Lemma getline_rdbuf_shorter strm str :
  fail (getline strm str).1 = false →
  rdbuf strm ≠ [] ∧
  (length (rdbuf (getline strm str).1) < length (rdbuf strm))%nat.
Proof.
  unfold getline. destruct (good strm); [|done].
  destruct (rdbuf strm) as [|c s] eqn:E; [done|].
  destruct (split_delim LF (c :: s)) as [l [r|]] eqn:Es; simpl; intros _.
  - split; [done|]. by apply split_delim_shorter in Es.
  - split; [done|lia].
Qed.

End stream_facts.

(** * The header loop *)

Section header_loop_facts.

Import HTTPRequest.

Implicit Types (l r s str line : list ascii).
Implicit Types (hs : gmap (list ascii) (list ascii)).

(** The loop never runs out of fuel: above the number of characters left,
    the amount of fuel is immaterial. *)
Lemma header_loop_fuel n m strm line hs :
  (length (rdbuf strm) < n)%nat → (length (rdbuf strm) < m)%nat →
  header_loop n strm line hs = header_loop m strm line hs.
Proof.
  revert m strm line hs.
  induction n as [|n IH]; intros [|m] strm line hs Hn Hm; try lia.
  simpl.
  destruct (getline strm line) as [strm1 line1] eqn:Eg.
  destruct (fail strm1) eqn:Ef; simpl; [done|].
  destruct (negb (bool_decide (line1 = [])) && negb (bool_decide (line1 = [CR])));
    [|done].
  pose proof (getline_rdbuf_shorter strm line) as Hs.
  rewrite Eg in Hs. destruct (Hs Ef) as [_ Hlt].
  apply IH; simpl in *; lia.
Qed.

Lemma parse_headers_unfold strm line hs :
  parse_headers strm line hs =
  let '(strm1, line1) := getline strm line in
  if negb (fail strm1) && negb (bool_decide (line1 = []))
     && negb (bool_decide (line1 = [CR]))
  then parse_headers strm1 (chomp_cr line1) (store_header (chomp_cr line1) hs)
  else (strm1, hs).
Proof.
  unfold parse_headers at 1. simpl.
  destruct (getline strm line) as [strm1 line1] eqn:Eg.
  destruct (fail strm1) eqn:Ef; simpl; [done|].
  destruct (negb (bool_decide (line1 = [])) && negb (bool_decide (line1 = [CR])));
    [|done].
  pose proof (getline_rdbuf_shorter strm line) as Hs.
  rewrite Eg in Hs. destruct (Hs Ef) as [_ Hlt].
  apply header_loop_fuel; simpl in *; lia.
Qed.

Lemma parse_headers_line l r line hs :
  header_line_ok l →
  parse_headers (istringstream_ctor (l ++ LF :: r)) line hs
  = parse_headers (istringstream_ctor r) (chomp_cr l)
                  (store_header (chomp_cr l) hs).
Proof.
  intros (Hlf & Hne & Hcr).
  rewrite parse_headers_unfold, (getline_line _ _ _ Hlf). simpl.
  by rewrite !bool_decide_eq_false_2.
Qed.

Lemma parse_headers_blank blank r line hs :
  blank = [] ∨ blank = [CR] →
  parse_headers (istringstream_ctor (blank ++ LF :: r)) line hs
  = (istringstream_ctor r, hs).
Proof.
  intros Hb. rewrite parse_headers_unfold, getline_line.
  - destruct Hb as [-> | ->]; done.
  - destruct Hb as [-> | ->]; [apply not_elem_of_nil|].
    apply not_elem_of_cons; split; [done|apply not_elem_of_nil].
Qed.

(** The loop consumes a header block line by line and stops behind the
    blank line, leaving the stream good. *)
Lemma parse_headers_block header_lines blank rest line hs :
  Forall header_line_ok header_lines →
  blank = [] ∨ blank = [CR] →
  parse_headers
    (istringstream_ctor
       (concat (map (fun l => l ++ [LF]) header_lines) ++ blank ++ LF :: rest))
    line hs
  = (istringstream_ctor rest,
     foldl (fun hs l => store_header (chomp_cr l) hs) hs header_lines).
Proof.
  intros Hls Hb. revert line hs.
  induction Hls as [|l ls Hl _ IH]; intros line hs; simpl.
  - by apply parse_headers_blank.
  - rewrite <- !app_assoc. simpl.
    rewrite (parse_headers_line _ _ _ _ Hl). apply IH.
Qed.

End header_loop_facts.

(** * The request line and the body *)

Section parse_facts.

Import HTTPRequest.

Implicit Types (l r s str line : list ascii).

(** The request line step leaves headers and body alone, whatever the
    input. *)
Lemma parse_request_line_frame strm line this :
  headers (parse_request_line strm line this).2 = headers this ∧
  body (parse_request_line strm line this).2 = body this.
Proof.
  unfold parse_request_line.
  destruct (getline strm line) as [strm1 line1].
  destruct (fail strm1); [done|].
  destruct (extract_string _ (method this)) as [ls1 m].
  destruct (extract_string ls1 (path this)) as [ls2 p].
  by destruct (extract_string ls2 (version this)) as [ls3 v].
Qed.

Lemma parse_request_line_stream rl r line this :
  LF ∉ rl →
  (parse_request_line (istringstream_ctor (rl ++ LF :: r)) line this).1
  = (istringstream_ctor r, rl).
Proof.
  intros Hrl. unfold parse_request_line.
  rewrite (getline_line _ _ _ Hrl). simpl.
  destruct (extract_string _ (method this)) as [ls1 m].
  destruct (extract_string ls1 (path this)) as [ls2 p].
  by destruct (extract_string ls2 (version this)) as [ls3 v].
Qed.

(** [parse] as the composition of its three steps. *)
Lemma parse_steps request_str this :
  parse request_str this =
  let rl := parse_request_line (istringstream_ctor request_str) [] this in
  let hl := parse_headers rl.1.1 rl.1.2 (headers rl.2) in
  parse_body hl.1
    {| method := method rl.2; path := path rl.2; version := version rl.2;
       headers := hl.2; body := body rl.2 |}.
Proof.
  unfold parse.
  destruct (parse_request_line _ _ _) as [[strm1 line] this1]. simpl.
  by destruct (parse_headers _ _ _) as [strm2 hs].
Qed.

Lemma parse_body_fields strm this :
  method (parse_body strm this).1 = method this ∧
  path (parse_body strm this).1 = path this ∧
  version (parse_body strm this).1 = version this ∧
  headers (parse_body strm this).1 = headers this.
Proof.
  unfold parse_body.
  destruct (headers this !! lit "Content-Length") as [v|]; [|done].
  destruct (stoi v) as [e|n]; [done|].
  destruct (vector_char_ctor n) as [e|buf]; [done|].
  by destruct (istream_read strm (Z.to_nat n)).
Qed.

Lemma parse_body_absent strm this :
  headers this !! lit "Content-Length" = None →
  parse_body strm this = (this, Returned).
Proof. intros E. unfold parse_body. by rewrite E. Qed.

(** With a declared length [n] and a good stream, the body is the first
    [n] characters of a buffer of [n] zeros over which the stream content
    has been stored. *)
Lemma parse_body_present rest this v (n : nat) :
  headers this !! lit "Content-Length" = Some v →
  stoi v = inr (Z.of_nat n) →
  parse_body (istringstream_ctor rest) this
  = ({| method := method this; path := path this; version := version this;
        headers := headers this;
        body := take n rest ++ replicate (n - length rest) NUL |}, Returned).
Proof.
  intros Hv Hn. unfold parse_body, vector_char_ctor. rewrite Hv, Hn.
  destruct (Z.ltb_spec (Z.of_nat n) 0) as [?|_]; [lia|].
  rewrite Nat2Z.id. unfold istream_read, store_prefix. simpl.
  do 2 f_equal.
  rewrite length_take, drop_replicate.
  destruct (decide (n ≤ length rest)%nat) as [Hle|Hgt].
  - replace (n - n `min` length rest)%nat with 0%nat by lia.
    replace (n - length rest)%nat with 0%nat by lia. simpl.
    rewrite app_nil_r. apply take_ge. rewrite length_take. lia.
  - replace (n `min` length rest)%nat with (length rest) by lia.
    rewrite (take_ge rest n) by lia.
    rewrite take_ge; [done|]. rewrite length_app, length_replicate. lia.
Qed.

(** On a header block followed by [rest], the body step starts on a good
    stream holding exactly [rest]. *)
Lemma parse_header_block rl header_lines blank rest :
  LF ∉ rl → Forall header_line_ok header_lines →
  blank = [] ∨ blank = [CR] →
  ∃ this,
    parse (header_block rl header_lines blank ++ rest) ctor
    = parse_body (istringstream_ctor rest) this
    ∧ headers this = headers_of_lines header_lines
    ∧ body this = [].
Proof.
  intros Hrl Hls Hb. rewrite parse_steps. unfold header_block.
  rewrite <- !app_assoc. simpl.
  pose proof (parse_request_line_stream rl
    (concat (map (fun l => l ++ [LF]) header_lines) ++ blank ++ LF :: rest)
    [] ctor Hrl) as Hs.
  pose proof (parse_request_line_frame
    (istringstream_ctor (rl ++ LF ::
       concat (map (fun l => l ++ [LF]) header_lines) ++ blank ++ LF :: rest))
    [] ctor) as [Hh Hbd].
  destruct (parse_request_line _ _ _) as [[strm1 line] this1].
  simpl in *. injection Hs as -> ->.
  rewrite (parse_headers_block _ _ _ _ _ Hls Hb). simpl.
  eexists. split; [reflexivity|]. simpl. rewrite Hh, Hbd. done.
Qed.

End parse_facts.

(** * Extraction of the request line tokens *)

Section token_facts.

Implicit Types (w ws s str : list ascii).

Lemma skipws_blanks ws s :
  Forall (fun c => isspace c = true) ws → skipws (ws ++ s) = skipws s.
Proof.
  induction 1 as [|c ws Hc _ IH]; simpl; [done|]. by rewrite Hc.
Qed.

Lemma skipws_word w s : word w → skipws (w ++ s) = w ++ s.
Proof.
  intros [Hne Hw]. destruct w as [|c w]; [done|].
  apply Forall_cons in Hw as [Hc _]. simpl. by rewrite Hc.
Qed.

Lemma span_word_app w s :
  Forall (fun c => isspace c = false) w → word_end s →
  span_word (w ++ s) = (w, s).
Proof.
  intros Hw Hs. induction Hw as [|c w Hc _ IH]; simpl.
  - destruct s as [|c s]; [done|]. simpl in *. by rewrite Hs.
  - by rewrite Hc, IH.
Qed.

Lemma extract_string_word ws w s str :
  Forall (fun c => isspace c = true) ws → word w → word_end s →
  extract_string (istringstream_ctor (ws ++ w ++ s)) str
  = ({| rdbuf := s; eofbit := bool_decide (s = []); failbit := false |}, w).
Proof.
  intros Hws Hw Hs. unfold extract_string. simpl.
  rewrite (skipws_blanks _ _ Hws), (skipws_word _ _ Hw).
  destruct Hw as [Hne Hw].
  pose proof (span_word_app _ _ Hw Hs) as Hspan.
  destruct w as [|c w]; [done|].
  simpl in *. by rewrite Hspan.
Qed.

Lemma blank_run_spaces ws :
  blank_run ws → Forall (fun c => isspace c = true) ws.
Proof. intros [_ H]. eapply Forall_impl; [exact H|]. by intros c [? _]. Qed.

Lemma blank_run_word_end ws s : blank_run ws → word_end (ws ++ s).
Proof.
  intros [Hne H]. destruct ws as [|c ws]; [done|].
  apply Forall_cons in H as [[Hc _] _]. exact Hc.
Qed.

Lemma blank_run_no_LF ws : blank_run ws → LF ∉ ws.
Proof.
  intros [_ H] Hin. rewrite Forall_forall in H.
  destruct (H _ Hin) as [_ Hne]. done.
Qed.

Lemma word_no_LF w : word w → LF ∉ w.
Proof.
  intros [_ H] Hin. rewrite Forall_forall in H.
  specialize (H _ Hin). done.
Qed.

End token_facts.

Section request_line_facts.

Import HTTPRequest.

Local Arguments extract_string : simpl never.

(** The three extractions of line 40 on a line made of three words. *)
Lemma parse_request_line_words m ws1 p ws2 v tail r line this :
  word m → blank_run ws1 → word p → blank_run ws2 → word v →
  tail = [] ∨ tail = [CR] →
  parse_request_line
    (istringstream_ctor ((m ++ ws1 ++ p ++ ws2 ++ v ++ tail) ++ LF :: r))
    line this
  = (istringstream_ctor r, m ++ ws1 ++ p ++ ws2 ++ v ++ tail,
     {| method := m; path := p; version := v;
        headers := headers this; body := body this |}).
Proof.
  intros Hm Hws1 Hp Hws2 Hv Htail.
  assert (LF ∉ tail) as Htl.
  { destruct Htail as [-> | ->]; [apply not_elem_of_nil|].
    apply not_elem_of_cons; split; [done|apply not_elem_of_nil]. }
  assert (word_end tail) as Hte by (destruct Htail as [-> | ->]; done).
  unfold parse_request_line. rewrite getline_line.
  2:{ rewrite !not_elem_of_app.
      repeat split; auto using word_no_LF, blank_run_no_LF. }
  simpl.
  pose proof (extract_string_word [] m (ws1 ++ p ++ ws2 ++ v ++ tail)
                (method this) (Forall_nil_2 _) Hm
                (blank_run_word_end _ _ Hws1)) as E1.
  cbn [app] in E1. rewrite E1. clear E1.
  rewrite bool_decide_eq_false_2.
  2:{ destruct Hws1 as [Hne _]. by destruct ws1. }
  change {| rdbuf := ?s; eofbit := false; failbit := false |}
    with (istringstream_ctor s).
  rewrite (extract_string_word ws1 p (ws2 ++ v ++ tail) (path this));
    [|by apply blank_run_spaces|done|by apply blank_run_word_end].
  rewrite bool_decide_eq_false_2.
  2:{ destruct Hws2 as [Hne _]. by destruct ws2. }
  change {| rdbuf := ?s; eofbit := false; failbit := false |}
    with (istringstream_ctor s).
  rewrite (extract_string_word ws2 v tail (version this));
    [|by apply blank_run_spaces|done|done].
  done.
Qed.

End request_line_facts.

(** * Header lines *)

Section header_text_facts.

Import HTTPRequest.

Implicit Types (k v l s : list ascii).
Implicit Types (hs : list (list ascii * list ascii)).
Implicit Types (m : gmap (list ascii) (list ascii)).

Lemma find_char_first c k s :
  c ∉ k → find_char c (k ++ c :: s) = Some (length k).
Proof.
  induction k as [|x k IH]; intros Hc; simpl.
  - by rewrite Ascii.eqb_refl.
  - apply not_elem_of_cons in Hc as [Hx Hk].
    destruct (Ascii.eqb_spec x c) as [->|_]; [done|].
    by rewrite IH.
Qed.

Lemma chomp_cr_snoc l : chomp_cr (l ++ [CR]) = l.
Proof.
  unfold chomp_cr. rewrite last_snoc. simpl.
  by rewrite removelast_last.
Qed.

Lemma chomp_cr_keep l : last l ≠ Some CR → chomp_cr l = l.
Proof.
  unfold chomp_cr. destruct (last l) as [c|]; [|done].
  intros Hc. destruct (Ascii.eqb_spec c CR) as [->|_]; done.
Qed.

Lemma store_header_text k v m :
  COLON ∉ k → erase_leading_blanks v = v →
  store_header (k ++ lit ": " ++ v) m = <[k := v]> m.
Proof.
  intros Hk Hv. unfold store_header.
  change (k ++ lit ": " ++ v) with (k ++ COLON :: SP :: v).
  rewrite (find_char_first _ _ _ Hk).
  rewrite take_app_length.
  replace (S (length k)) with (length (k ++ [COLON])) by (rewrite length_app; simpl; lia).
  replace (k ++ COLON :: SP :: v) with ((k ++ [COLON]) ++ SP :: v)
    by (by rewrite <- app_assoc).
  rewrite drop_app_length. simpl. by rewrite Hv.
Qed.

Lemma eol_cr_of crlf : eol crlf = cr_of crlf ++ [LF].
Proof. by destruct crlf. Qed.

Lemma header_text_line_ok crlf k v :
  header_name_ok k → header_value_ok v →
  header_line_ok (k ++ lit ": " ++ v ++ cr_of crlf) ∧
  chomp_cr (k ++ lit ": " ++ v ++ cr_of crlf) = k ++ lit ": " ++ v.
Proof.
  intros [Hkc Hkl] (Hvl & Hvb & Hvr).
  change (lit ": ") with [COLON; SP]. split.
  - repeat split.
    + rewrite !not_elem_of_app. repeat split; [done| |done|].
      * rewrite !not_elem_of_cons. repeat split; [done|done|apply not_elem_of_nil].
      * destruct crlf; simpl; [|apply not_elem_of_nil].
        rewrite not_elem_of_cons. split; [done|apply not_elem_of_nil].
    + by destruct k.
    + intros E. apply (f_equal length) in E.
      rewrite !length_app in E. simpl in E. lia.
  - destruct crlf; simpl.
    + replace (k ++ COLON :: SP :: v ++ [CR])
        with ((k ++ COLON :: SP :: v) ++ [CR]) by (by rewrite <- app_assoc).
      apply chomp_cr_snoc.
    + rewrite app_nil_r. apply chomp_cr_keep.
      destruct v as [|c v] using rev_ind.
      * replace (k ++ [COLON; SP]) with ((k ++ [COLON]) ++ [SP])
          by (by rewrite <- app_assoc).
        rewrite last_snoc. done.
      * replace (k ++ COLON :: SP :: v ++ [c])
          with ((k ++ COLON :: SP :: v) ++ [c]) by (by rewrite <- app_assoc).
        rewrite last_snoc. rewrite last_snoc in Hvr. done.
Qed.

Lemma concat_header_text crlf hs :
  concat (map (header_text crlf) hs)
  = concat (map (fun l => l ++ [LF]) (lines_of crlf hs)).
Proof.
  induction hs as [|[k v] hs IH]; simpl; [done|].
  rewrite IH. unfold header_text. simpl.
  rewrite eol_cr_of. f_equal.
  rewrite <- (app_assoc k). simpl. by rewrite <- (app_assoc v).
Qed.

Lemma lines_of_ok crlf hs :
  Forall (fun kv => header_name_ok kv.1 ∧ header_value_ok kv.2) hs →
  Forall header_line_ok (lines_of crlf hs).
Proof.
  induction 1 as [|[k v] hs [Hk Hv] _ IH]; simpl; constructor; [|done].
  by apply header_text_line_ok.
Qed.

Lemma foldl_store_lines crlf hs m :
  Forall (fun kv => header_name_ok kv.1 ∧ header_value_ok kv.2) hs →
  foldl (fun m l => store_header (chomp_cr l) m) m (lines_of crlf hs)
  = foldl (fun m kv => <[kv.1 := kv.2]> m) m hs.
Proof.
  intros Hhs. revert m.
  induction Hhs as [|[k v] hs [Hk Hv] _ IH]; intros m; simpl; [done|].
  destruct (header_text_line_ok crlf k v Hk Hv) as [_ E].
  simpl in E. rewrite E.
  pose proof (store_header_text k v m (proj1 Hk) (proj1 (proj2 Hv))) as Es.
  simpl in Es. rewrite Es. apply IH.
Qed.

Lemma foldl_insert_absent hs m k :
  k ∉ hs.*1 → foldl (fun m kv => <[kv.1 := kv.2]> m) m hs !! k = m !! k.
Proof.
  revert m. induction hs as [|[k' v'] hs IH]; intros m Hk; simpl; [done|].
  simpl in Hk. apply not_elem_of_cons in Hk as [Hne Hk].
  rewrite IH by done. by rewrite lookup_insert_ne.
Qed.

(** Last occurrence wins. *)
Lemma header_map_last hs1 k v hs2 :
  k ∉ hs2.*1 → header_map (hs1 ++ (k, v) :: hs2) !! k = Some v.
Proof.
  intros Hk. unfold header_map. rewrite foldl_app. simpl.
  rewrite foldl_insert_absent by done. apply lookup_insert_eq.
Qed.

Lemma header_map_absent hs k : k ∉ hs.*1 → header_map hs !! k = None.
Proof.
  intros Hk. unfold header_map. by rewrite foldl_insert_absent.
Qed.

End header_text_facts.

(** * Parsing a whole request *)

Section request_text_facts.

Import HTTPRequest.

Lemma request_text_shape crlf m ws1 p ws2 v hs rest :
  request_text crlf m ws1 p ws2 v hs ++ rest
  = (m ++ ws1 ++ p ++ ws2 ++ v ++ cr_of crlf) ++ LF ::
    (concat (map (fun l => l ++ [LF]) (lines_of crlf hs))
     ++ cr_of crlf ++ LF :: rest).
Proof.
  unfold request_text. rewrite concat_header_text, !eol_cr_of.
  repeat rewrite <- app_assoc. done.
Qed.

(** After the request line and the header loop, the body step runs on a
    good stream that holds what follows the blank line. *)
Lemma parse_request_text crlf m ws1 p ws2 v hs rest :
  word m → blank_run ws1 → word p → blank_run ws2 → word v →
  Forall (fun kv => header_name_ok kv.1 ∧ header_value_ok kv.2) hs →
  parse (request_text crlf m ws1 p ws2 v hs ++ rest) ctor
  = parse_body (istringstream_ctor rest)
      {| method := m; path := p; version := v;
         headers := header_map hs; body := [] |}.
Proof.
  intros Hm Hws1 Hp Hws2 Hv Hhs.
  rewrite request_text_shape, parse_steps.
  rewrite parse_request_line_words; try done.
  2:{ destruct crlf; [by right|by left]. }
  cbn [fst snd method path version headers body ctor].
  rewrite parse_headers_block.
  - cbn [fst snd]. by rewrite foldl_store_lines.
  - by apply lines_of_ok.
  - destruct crlf; [by right|by left].
Qed.

End request_text_facts.

(** C1. A request text made of a request line with three words, header
    lines [Name: value] and a blank line (with CRLF or bare LF line
    endings, and whatever follows the blank line) is parsed into exactly
    the method, path and version it was written from and into the mapping
    its headers denote. Names are compared character by character, and
    of several headers with one name the last is the one stored. The
    fields hold these values when [parse] is left, also when the body
    step throws. *)
Theorem C1_parse_recovers_request
    (crlf : bool) (m ws1 p ws2 v rest : list ascii)
    (hs : list (list ascii * list ascii))
    (Hm : word m) (Hws1 : blank_run ws1) (Hp : word p)
    (Hws2 : blank_run ws2) (Hv : word v)
    (Hhs : Forall (fun kv => header_name_ok kv.1 ∧ header_value_ok kv.2) hs) :
  let request :=
    (HTTPRequest.parse (request_text crlf m ws1 p ws2 v hs ++ rest)
                       HTTPRequest.ctor).1 in
  HTTPRequest.method request = m
  ∧ HTTPRequest.path request = p
  ∧ HTTPRequest.version request = v
  ∧ HTTPRequest.headers request = header_map hs
  ∧ (∀ hs1 k x hs2,
        hs = hs1 ++ (k, x) :: hs2 → k ∉ hs2.*1 →
        HTTPRequest.headers request !! k = Some x)
  ∧ (∀ k, k ∉ hs.*1 → HTTPRequest.headers request !! k = None).
Proof.
  intros request. subst request.
  rewrite parse_request_text by done.
  destruct (parse_body_fields (istringstream_ctor rest)
    {| HTTPRequest.method := m; HTTPRequest.path := p;
       HTTPRequest.version := v; HTTPRequest.headers := header_map hs;
       HTTPRequest.body := [] |}) as (-> & -> & -> & ->).
  simpl. repeat split; try done.
  - intros hs1 k x hs2 -> Hk. by apply header_map_last.
  - intros k Hk. by apply header_map_absent.
Qed.

(** C4. When the headers of a request declare [Content-Length: N] and at
    least [N] characters follow the header block, [parse] returns and the
    body is exactly the first [N] of those characters. When the headers
    hold no [Content-Length], whatever the input, [parse] returns and the
    body is empty. *)
Theorem C4_body_is_declared_length
    (request_line blank rest x : list ascii)
    (header_lines : list (list ascii)) (N : nat)
    (Hrl : LF ∉ request_line)
    (Hls : Forall header_line_ok header_lines)
    (Hblank : blank = [] ∨ blank = [CR])
    (Hdecl : HTTPRequest.headers
               (HTTPRequest.parse
                  (header_block request_line header_lines blank ++ rest)
                  HTTPRequest.ctor).1
             !! lit "Content-Length" = Some x)
    (HN : stoi x = inr (Z.of_nat N))
    (Hlen : (N ≤ length rest)%nat) :
  (let result :=
     HTTPRequest.parse (header_block request_line header_lines blank ++ rest)
                       HTTPRequest.ctor in
   result.2 = Returned
   ∧ HTTPRequest.body result.1 = take N rest
   ∧ length (HTTPRequest.body result.1) = N)
  ∧ (∀ request_str,
       HTTPRequest.headers
         (HTTPRequest.parse request_str HTTPRequest.ctor).1
       !! lit "Content-Length" = None →
       (HTTPRequest.parse request_str HTTPRequest.ctor).2 = Returned
       ∧ HTTPRequest.body
           (HTTPRequest.parse request_str HTTPRequest.ctor).1 = []).
Proof.
  split.
  - destruct (parse_header_block request_line header_lines blank rest
                Hrl Hls Hblank) as (this & Hparse & Hh & Hb).
    cbv zeta. rewrite Hparse in *.
    destruct (parse_body_fields (istringstream_ctor rest) this)
      as (_ & _ & _ & Hhd).
    rewrite Hhd in Hdecl.
    rewrite (parse_body_present rest this x N Hdecl HN). simpl.
    replace (N - length rest)%nat with 0%nat by lia. simpl.
    rewrite app_nil_r. repeat split.
    rewrite length_take. lia.
  - intros request_str. rewrite parse_steps. cbv zeta.
    set (rl := HTTPRequest.parse_request_line _ _ _).
    set (hl := HTTPRequest.parse_headers _ _ _).
    set (this := HTTPRequest.mk _ _ _ _ _).
    destruct (parse_body_fields hl.1 this) as (_ & _ & _ & Hhd).
    rewrite Hhd. intros Habs.
    rewrite (parse_body_absent _ _ Habs). simpl. split; [done|].
    subst rl.
    apply (parse_request_line_frame
             (istringstream_ctor request_str) [] HTTPRequest.ctor).
Qed.

(** C2, as the code has it. When the headers declare [Content-Length: N]
    and fewer than [N] characters follow the header block, [parse]
    returns without an error; the body has length [N]: the characters
    that are there, then zero characters up to the declared length. *)
Theorem C2_short_body_is_zero_padded
    (request_line blank rest x : list ascii)
    (header_lines : list (list ascii)) (N : nat)
    (Hrl : LF ∉ request_line)
    (Hls : Forall header_line_ok header_lines)
    (Hblank : blank = [] ∨ blank = [CR])
    (Hdecl : HTTPRequest.headers
               (HTTPRequest.parse
                  (header_block request_line header_lines blank ++ rest)
                  HTTPRequest.ctor).1
             !! lit "Content-Length" = Some x)
    (HN : stoi x = inr (Z.of_nat N))
    (Hlen : (length rest < N)%nat) :
  let result :=
    HTTPRequest.parse (header_block request_line header_lines blank ++ rest)
                      HTTPRequest.ctor in
  result.2 = Returned
  ∧ HTTPRequest.body result.1 = rest ++ replicate (N - length rest) NUL
  ∧ length (HTTPRequest.body result.1) = N
  ∧ take (length rest) (HTTPRequest.body result.1) = rest.
Proof.
  destruct (parse_header_block request_line header_lines blank rest
              Hrl Hls Hblank) as (this & Hparse & Hh & Hb).
  cbv zeta. rewrite Hparse in *.
  destruct (parse_body_fields (istringstream_ctor rest) this)
    as (_ & _ & _ & Hhd).
  rewrite Hhd in Hdecl.
  rewrite (parse_body_present rest this x N Hdecl HN). simpl.
  rewrite (take_ge rest N) by lia.
  repeat split.
  - rewrite length_app, length_replicate. lia.
  - by rewrite take_app_length.
Qed.

(** * Decimal rendering *)

Section decimal_facts.

Lemma digit_char_spec d :
  0 <= d <= 9 →
  isdigit (digit_char d) = true ∧ digit_value (digit_char d) = d.
Proof.
  intros Hd.
  assert (d = 0 ∨ d = 1 ∨ d = 2 ∨ d = 3 ∨ d = 4 ∨ d = 5 ∨ d = 6 ∨ d = 7
          ∨ d = 8 ∨ d = 9) as Hcases by lia.
  repeat (destruct Hcases as [-> | Hcases]; [by vm_compute|]).
  subst d. by vm_compute.
Qed.

Lemma decimal_value_snoc ds c :
  decimal_value (ds ++ [c]) = 10 * decimal_value ds + digit_value c.
Proof. unfold decimal_value. by rewrite fold_left_app. Qed.

(** With fuel for every digit, the digits of [n] are put in front of
    the accumulator. *)
Lemma to_digits_spec fuel n acc :
  0 <= n < 10 ^ Z.of_nat (S fuel) →
  ∃ ds, to_digits (S fuel) n acc = ds ++ acc
        ∧ Forall (fun c => isdigit c = true) ds
        ∧ decimal_value ds = n
        ∧ ds ≠ [].
Proof.
  revert n acc. induction fuel as [|fuel IH]; intros n acc Hn;
    cbn [to_digits];
    (assert (0 <= n mod 10 <= 9) as Hd
       by (pose proof (Z.mod_pos_bound n 10); lia));
    destruct (digit_char_spec _ Hd) as [Hdig Hval];
    destruct (Z.eqb_spec (n / 10) 0) as [Hq|Hq].
  - exists [digit_char (n mod 10)]. repeat split; [by constructor| |done].
    unfold decimal_value. simpl. rewrite Hval.
    pose proof (Z.div_mod n 10). lia.
  - exfalso. apply Hq. apply Z.div_small. simpl in Hn. lia.
  - exists [digit_char (n mod 10)]. repeat split; [by constructor| |done].
    unfold decimal_value. simpl. rewrite Hval.
    pose proof (Z.div_mod n 10). lia.
  - assert (0 <= n / 10 < 10 ^ Z.of_nat (S fuel)) as Hq'.
    { split; [apply Z.div_pos; lia|].
      apply Z.div_lt_upper_bound; [lia|].
      rewrite (Nat2Z.inj_succ (S fuel)), Z.pow_succ_r in Hn by lia. lia. }
    destruct (IH (n / 10) (digit_char (n mod 10) :: acc) Hq')
      as (ds & Hds & Hall & Hv & Hne).
    cbn [to_digits] in Hds. rewrite Hds.
    exists (ds ++ [digit_char (n mod 10)]). repeat split.
    + by rewrite <- app_assoc.
    + apply Forall_app; split; [done|by constructor].
    + rewrite decimal_value_snoc, Hv, Hval.
      pose proof (Z.div_mod n 10). lia.
    + by destruct ds.
Qed.

Lemma log2_fuel n :
  0 <= n → n < 10 ^ Z.of_nat (S (Z.to_nat (Z.log2 n))).
Proof.
  intros Hn. rewrite Nat2Z.inj_succ, Z2Nat.id by apply Z.log2_nonneg.
  destruct (Z.eq_dec n 0) as [->|Hne]; [by vm_compute|].
  pose proof (Z.log2_spec n ltac:(lia)) as [_ Hlt].
  eapply Z.lt_le_trans; [exact Hlt|].
  apply Z.pow_le_mono_l. pose proof (Z.log2_nonneg n). lia.
Qed.

(** [to_string] writes a non-negative number as a non-empty run of
    decimal digits whose value is the number. *)
Lemma to_string_decimal n :
  0 <= n →
  Forall (fun c => isdigit c = true) (to_string n)
  ∧ decimal_value (to_string n) = n
  ∧ to_string n ≠ [].
Proof.
  intros Hn. unfold to_string.
  destruct (Z.ltb_spec n 0) as [?|_]; [lia|].
  rewrite Z.abs_eq by done.
  destruct (to_digits_spec (Z.to_nat (Z.log2 n)) n []
              (conj Hn (log2_fuel n Hn))) as (ds & -> & Hds & Hv & Hne).
  by rewrite app_nil_r.
Qed.

End decimal_facts.

(** * The response *)

Section response_facts.

Import HTTPResponse.

Context `{UnorderedMapOrder}.

Implicit Types (hs : list (list ascii * list ascii)).

Lemma fold_put_header hs oss :
  fold_left put_header hs oss = oss ++ concat (map header_row hs).
Proof.
  revert oss. induction hs as [|kv hs IH]; intros oss; simpl.
  - by rewrite app_nil_r.
  - rewrite IH. unfold put_header, header_row. by rewrite <- !app_assoc.
Qed.

Lemma toString_layout r :
  toString r
  = status_line r ++ concat (map header_row (iteration_order (headers r)))
    ++ CRLF ++ body r.
Proof.
  unfold toString, status_line. rewrite fold_put_header. simpl.
  by repeat rewrite <- app_assoc.
Qed.

Lemma iteration_order_elem m k v :
  (k, v) ∈ iteration_order m ↔ m !! k = Some v.
Proof. by rewrite iteration_order_perm, elem_of_map_to_list. Qed.

Lemma iteration_order_NoDup m : NoDup (iteration_order m).*1.
Proof. rewrite iteration_order_perm. apply NoDup_fst_map_to_list. Qed.

Lemma iteration_order_length m : length (iteration_order m) = size m.
Proof. rewrite iteration_order_perm. by rewrite length_map_to_list. Qed.

(** Every stored header is written out as a row. *)
Lemma toString_contains_header r k v :
  headers r !! k = Some v →
  contains (k ++ [COLON; SP] ++ v ++ CRLF) (toString r).
Proof.
  intros Hkv. apply iteration_order_elem in Hkv.
  apply list_elem_of_split in Hkv as (l1 & l2 & Hl).
  rewrite toString_layout, Hl, map_app, concat_app.
  exists (status_line r ++ concat (map header_row l1)),
         (concat (map header_row l2) ++ CRLF ++ body r).
  cbn [map concat]. unfold header_row, CRLF. cbn [fst snd].
  app_norm. reflexivity.
Qed.

(** The body comes last, behind the blank line that follows the last
    row (or the status line). *)
Lemma toString_ends_with_body r :
  ∃ pre, toString r = pre ++ CRLF ++ CRLF ++ body r.
Proof.
  rewrite toString_layout.
  destruct (iteration_order (headers r)) as [|kv hs _] using rev_ind.
  - exists (version r ++ [SP] ++ to_string (status_code r) ++ [SP]
            ++ status_message r).
    unfold status_line, CRLF. cbn [map concat]. app_norm. reflexivity.
  - exists (status_line r ++ concat (map header_row hs)
            ++ kv.1 ++ [COLON; SP] ++ kv.2).
    rewrite map_app, concat_app. cbn [map concat].
    unfold header_row, CRLF. app_norm. reflexivity.
Qed.

Lemma contains_prefix_of needle tail hay :
  contains (needle ++ tail) hay → contains needle hay.
Proof.
  intros (pre & post & ->). exists pre, (tail ++ post).
  by rewrite <- app_assoc.
Qed.

End response_facts.

(** C5. After [setContent(c, t)] on any response, the body is [c], the
    [Content-Length] header is the decimal rendering of the length of
    [c] (a run of digits whose value is that length) and the
    [Content-Type] header is [t]. In particular the serialisation of a
    fresh response after [setContent("abc", "text/plain")] contains
    [Content-Length: 3] and [Content-Type: text/plain] and ends with the
    blank line followed by [abc], whatever the order in which the headers
    are visited. *)
Theorem C5_setContent_headers_and_body `{UnorderedMapOrder}
    (c t : list ascii) (r : HTTPResponse.t) :
  (let r' := HTTPResponse.setContent c t r in
   HTTPResponse.body r' = c
   ∧ HTTPResponse.headers r' !! lit "Content-Length"
     = Some (to_string (Z.of_nat (length c)))
   ∧ Forall (fun d => isdigit d = true) (to_string (Z.of_nat (length c)))
   ∧ decimal_value (to_string (Z.of_nat (length c))) = Z.of_nat (length c)
   ∧ HTTPResponse.headers r' !! lit "Content-Type" = Some t)
  ∧ (let out :=
       HTTPResponse.toString
         (HTTPResponse.setContent (lit "abc") (lit "text/plain")
                                  HTTPResponse.ctor) in
     contains (lit "Content-Length: 3") out
     ∧ contains (lit "Content-Type: text/plain") out
     ∧ ∃ pre, out = pre ++ HTTPResponse.CRLF ++ HTTPResponse.CRLF ++ lit "abc").
Proof.
  split.
  - cbv zeta. unfold HTTPResponse.setContent. cbn.
    destruct (to_string_decimal (Z.of_nat (length c)) ltac:(lia))
      as (Hd & Hv & _).
    repeat split; try done.
    + apply lookup_insert_eq.
    + rewrite lookup_insert_ne by done. apply lookup_insert_eq.
  - cbv zeta.
    set (r' := HTTPResponse.setContent (lit "abc") (lit "text/plain")
                                       HTTPResponse.ctor).
    assert (HTTPResponse.headers r' !! lit "Content-Length" = Some (lit "3"))
      as Hcl by (by vm_compute).
    assert (HTTPResponse.headers r' !! lit "Content-Type"
            = Some (lit "text/plain")) as Hct by (by vm_compute).
    repeat split.
    + apply toString_contains_header in Hcl.
      by apply (contains_prefix_of _ HTTPResponse.CRLF).
    + apply toString_contains_header in Hct.
      by apply (contains_prefix_of _ HTTPResponse.CRLF).
    + apply (toString_ends_with_body r').
Qed.

(** C6. The serialisation of a response is its status line
    [version status message] ended by CRLF, then one row [name: value]
    ended by CRLF for each header entry, every entry once, in the order
    the map is visited, then an empty line, then the body as it is. A
    freshly constructed response has version [HTTP/1.1], status 200,
    message [OK], no headers and an empty body. *)
Theorem C6_toString_layout `{UnorderedMapOrder} (r : HTTPResponse.t) :
  (∃ hs : list (list ascii * list ascii),
      NoDup hs.*1
      ∧ (∀ k v, (k, v) ∈ hs ↔ HTTPResponse.headers r !! k = Some v)
      ∧ length hs = size (HTTPResponse.headers r)
      ∧ HTTPResponse.toString r
        = HTTPResponse.version r ++ [SP]
          ++ to_string (HTTPResponse.status_code r) ++ [SP]
          ++ HTTPResponse.status_message r ++ [CR; LF]
          ++ concat (map (fun kv => kv.1 ++ [COLON; SP] ++ kv.2 ++ [CR; LF]) hs)
          ++ [CR; LF] ++ HTTPResponse.body r)
  ∧ HTTPResponse.version HTTPResponse.ctor = lit "HTTP/1.1"
  ∧ HTTPResponse.status_code HTTPResponse.ctor = 200
  ∧ HTTPResponse.status_message HTTPResponse.ctor = lit "OK"
  ∧ HTTPResponse.headers HTTPResponse.ctor = ∅
  ∧ HTTPResponse.body HTTPResponse.ctor = []
  ∧ HTTPResponse.toString HTTPResponse.ctor
    = lit "HTTP/1.1 200 OK" ++ [CR; LF; CR; LF].
Proof.
  split; [|repeat split].
  - exists (iteration_order (HTTPResponse.headers r)). repeat split.
    + apply iteration_order_NoDup.
    + by apply iteration_order_elem.
    + by apply iteration_order_elem.
    + apply iteration_order_length.
    + rewrite toString_layout. unfold status_line, HTTPResponse.CRLF.
      app_norm. reflexivity.
  - rewrite toString_layout.
    assert (iteration_order (HTTPResponse.headers HTTPResponse.ctor) = [])
      as ->.
    { apply Permutation_nil_r. rewrite iteration_order_perm.
      simpl. by rewrite map_to_list_empty. }
    by vm_compute.
Qed.

(** C10. [setContent(c, t)] changes the body and the two header entries
    [Content-Type] and [Content-Length], and nothing else: version,
    status code and status message are kept, and so is every other
    header entry, present or absent. *)
Theorem C10_setContent_frame (c t : list ascii) (r : HTTPResponse.t) :
  let r' := HTTPResponse.setContent c t r in
  HTTPResponse.version r' = HTTPResponse.version r
  ∧ HTTPResponse.status_code r' = HTTPResponse.status_code r
  ∧ HTTPResponse.status_message r' = HTTPResponse.status_message r
  ∧ (∀ k, k ≠ lit "Content-Type" → k ≠ lit "Content-Length" →
          HTTPResponse.headers r' !! k = HTTPResponse.headers r !! k)
  ∧ dom (HTTPResponse.headers r')
    = {[lit "Content-Type"; lit "Content-Length"]}
      ∪ dom (HTTPResponse.headers r).
Proof.
  cbv zeta. unfold HTTPResponse.setContent. cbn. repeat split.
  - intros k Hct Hcl. by rewrite !lookup_insert_ne.
  - rewrite !dom_insert_L.
    by rewrite (assoc_L (∪)), (comm_L (∪) {[lit "Content-Length"]}).
Qed.

(** * Routes and static files *)

Section route_facts.

Import WebServer.

Implicit Types (str ext file_path : list ascii).

(** [hasExtension] is the suffix test. *)
Lemma hasExtension_suffix str ext :
  hasExtension str ext = bool_decide (ext `suffix_of` str).
Proof.
  unfold hasExtension.
  destruct (Nat.ltb_spec (length str) (length ext)) as [Hlt|Hle].
  - symmetry. apply bool_decide_eq_false_2. intros Hs.
    apply suffix_length in Hs. lia.
  - apply bool_decide_ext. split.
    + intros Heq. rewrite take_ge in Heq by (rewrite length_drop; lia).
      rewrite <- Heq. apply suffix_drop.
    + intros [k ->]. rewrite length_app.
      replace (length k + length ext - length ext)%nat with (length k) by lia.
      rewrite drop_app_length. apply take_ge. lia.
Qed.

Lemma hasExtension_true str ext :
  ext `suffix_of` str → hasExtension str ext = true.
Proof. intros Hs. rewrite hasExtension_suffix. by apply bool_decide_eq_true_2. Qed.

Lemma hasExtension_false str ext :
  ¬ ext `suffix_of` str → hasExtension str ext = false.
Proof. intros Hs. rewrite hasExtension_suffix. by apply bool_decide_eq_false_2. Qed.

(** Two suffixes of one path are comparable; extensions that are not
    exclude each other. *)
Lemma hasExtension_exclusive str ext ext' :
  ext `suffix_of` str →
  bool_decide (ext `suffix_of` ext') = false →
  bool_decide (ext' `suffix_of` ext) = false →
  hasExtension str ext' = false.
Proof.
  intros Hs H1 H2. apply hasExtension_false. intros Hs'.
  apply bool_decide_eq_false_1 in H1. apply bool_decide_eq_false_1 in H2.
  destruct (suffix_weak_total _ _ _ Hs Hs'); done.
Qed.

Ltac settle_extensions Hsuf :=
  repeat match goal with
  | |- context [hasExtension ?fp ?e] =>
      first [ rewrite (hasExtension_true fp e Hsuf)
            | rewrite (hasExtension_exclusive fp _ e Hsuf)
                by (vm_compute; reflexivity) ]
  end.

(** The chain of tests of lines 170-184 computes the table. *)
Lemma content_type_of_table file_path ext ty :
  (ext, ty) ∈ content_type_table → ext `suffix_of` file_path →
  content_type_of file_path = ty.
Proof.
  intros Hin Hsuf. unfold content_type_table in Hin.
  repeat (apply elem_of_cons in Hin as [[= -> ->] | Hin];
          [unfold content_type_of; settle_extensions Hsuf; reflexivity|]).
  by apply elem_of_nil in Hin.
Qed.

Lemma content_type_of_default file_path :
  (∀ ext ty, (ext, ty) ∈ content_type_table → ¬ ext `suffix_of` file_path) →
  content_type_of file_path = lit "text/plain".
Proof.
  intros Hno. unfold content_type_of.
  repeat match goal with
  | |- context [hasExtension file_path ?e] =>
      rewrite (hasExtension_false file_path e)
        by (eapply (Hno e); unfold content_type_table;
            repeat first [apply list_elem_of_here | apply list_elem_of_further])
  end.
  reflexivity.
Qed.

Lemma setContent_fields c t r :
  HTTPResponse.status_code (HTTPResponse.setContent c t r)
  = HTTPResponse.status_code r
  ∧ HTTPResponse.status_message (HTTPResponse.setContent c t r)
    = HTTPResponse.status_message r
  ∧ HTTPResponse.body (HTTPResponse.setContent c t r) = c
  ∧ HTTPResponse.headers (HTTPResponse.setContent c t r) !! lit "Content-Type"
    = Some t.
Proof.
  unfold HTTPResponse.setContent. cbn. repeat split.
  rewrite lookup_insert_ne by done. apply lookup_insert_eq.
Qed.

End route_facts.

(** * One connection, and the accept loop *)

Section serve_facts.

Import WebServer.

Context `{UnorderedMapOrder}.

Lemma buffer_size_minus_one : buffer_size - 1 = 8191.
Proof. reflexivity. Qed.

(** What [recv] delivers: at most 8191 characters of the queue. *)
Lemma receive_pending c q :
  pending c = Some q →
  receive c = (Z.of_nat (length (take recv_limit q)),
               store_prefix (take recv_limit q)
                            (replicate (Z.to_nat buffer_size) NUL)).
Proof.
  intros Hq. unfold receive, recv. by rewrite Hq.
Qed.

Lemma receive_error c :
  pending c = None → (receive c).1 = -1.
Proof. intros Hq. unfold receive, recv. by rewrite Hq. Qed.

Lemma request_str_of_pending c q :
  pending c = Some q → request_str_of c = take recv_limit q.
Proof.
  intros Hq. unfold request_str_of. rewrite (receive_pending _ _ Hq).
  rewrite Nat2Z.id. unfold store_prefix. by rewrite take_app_length.
Qed.

Lemma serve_unfold rs c :
  serve rs c =
  if 0 <? (receive c).1 then
    match HTTPRequest.parse (request_str_of c) HTTPRequest.ctor with
    | (_, Thrown e) => ([EvRecv (client_socket c) 8191], Thrown e)
    | (request, Returned) =>
        let '(response, evs) :=
          dispatch rs (files c) request HTTPResponse.ctor in
        (EvRecv (client_socket c) 8191
         :: evs ++ [EvSend (client_socket c) (HTTPResponse.toString response);
                    EvClose (client_socket c)], Returned)
    end
  else ([EvRecv (client_socket c) 8191; EvClose (client_socket c)], Returned).
Proof.
  unfold serve, request_str_of.
  destruct (receive c) as [n buffer]. by rewrite buffer_size_minus_one.
Qed.

(** Characters of the queue beyond the 8191st never matter. *)
Lemma serve_truncates rs c q :
  pending c = Some q →
  serve rs c = serve rs (with_pending (Some (take recv_limit q)) c).
Proof.
  intros Hq. rewrite !serve_unfold.
  rewrite (request_str_of_pending c q Hq).
  rewrite (request_str_of_pending (with_pending (Some (take recv_limit q)) c)
             (take recv_limit q) eq_refl).
  rewrite (receive_pending c q Hq).
  rewrite (receive_pending (with_pending (Some (take recv_limit q)) c)
             (take recv_limit q) eq_refl).
  by rewrite take_take, Nat.min_id.
Qed.

(** Exactly one [recv] per connection. *)
Lemma serve_one_recv rs c :
  ∃ evs, (serve rs c).1 = EvRecv (client_socket c) 8191 :: evs
         ∧ ∀ s n, EvRecv s n ∉ evs.
Proof.
  rewrite serve_unfold. destruct (0 <? (receive c).1).
  - destruct (HTTPRequest.parse _ _) as [request [|e]].
    + unfold dispatch.
      destruct (rs !! HTTPRequest.path request) as [h|]; simpl;
        eexists; (split; [reflexivity|]); intros s n;
        rewrite !not_elem_of_cons; repeat split; try done;
        apply not_elem_of_nil.
    + simpl. exists []. split; [done|]. intros s n. apply not_elem_of_nil.
  - simpl. eexists. split; [reflexivity|]. intros s n.
    rewrite !not_elem_of_cons; repeat split; try done. apply not_elem_of_nil.
Qed.

(** The loop over connections that are all served to the end, followed
    by more connections. *)
Lemma accept_loop_app rs before after :
  (accept_loop rs before).2 = Accepting →
  accept_loop rs (before ++ after)
  = ((accept_loop rs before).1 ++ (accept_loop rs after).1,
     (accept_loop rs after).2).
Proof.
  induction before as [|c before IH]; simpl.
  - intros _. by destruct (accept_loop rs after).
  - destruct (client_socket c =? INVALID_SOCKET).
    + destruct (accept_loop rs before) as [evs st] eqn:E. simpl.
      intros ->. rewrite IH by done. simpl. done.
    + destruct (serve rs c) as [evs1 [|e]].
      * destruct (accept_loop rs before) as [evs st] eqn:E. simpl.
        intros ->. rewrite IH by done. simpl. by rewrite <- app_assoc.
      * done.
Qed.

(** A connection on which [parse] throws ends the loop. *)
Lemma accept_loop_thrown rs c after e evs :
  client_socket c ≠ INVALID_SOCKET →
  serve rs c = (evs, Thrown e) →
  accept_loop rs (c :: after)
  = (EvClientConnected (client_ip c) :: evs, Escaped e).
Proof.
  intros Hs Hserve. simpl.
  destruct (Z.eqb_spec (client_socket c) INVALID_SOCKET); [done|].
  by rewrite Hserve.
Qed.

(** A short request that parses and has no route is answered with the
    not-found response, and the connection is closed. *)
Lemma serve_not_found rs c q request :
  pending c = Some q → q ≠ [] → (length q ≤ recv_limit)%nat →
  HTTPRequest.parse q HTTPRequest.ctor = (request, Returned) →
  rs !! HTTPRequest.path request = None →
  serve rs c
  = ([EvRecv (client_socket c) 8191;
      EvSend (client_socket c)
        (HTTPResponse.toString (respond_not_found HTTPResponse.ctor));
      EvClose (client_socket c)], Returned).
Proof.
  intros Hq Hne Hlen Hparse Hrs.
  rewrite serve_unfold, (request_str_of_pending _ _ Hq),
    (receive_pending _ _ Hq).
  rewrite take_ge by done. cbn [fst].
  destruct (Z.ltb_spec 0 (Z.of_nat (length q))) as [_|Hz].
  - rewrite Hparse. unfold dispatch. by rewrite Hrs.
  - destruct q; [done|]. simpl in Hz. lia.
Qed.

End serve_facts.

(** C7. A request is routed by looking its path up in the route table,
    by equality of strings: after registering [/foo] alone, [/foo] is
    resolved while [/foo/], [/foo?q=x] and every other path are not, and
    the path looked up is the second word of the request line as it was
    sent. A request whose path has no equal registered route gets status
    404, message [Not Found] and the fixed page as body, and no handler
    runs. *)
Theorem C7_exact_route_match `{UnorderedMapOrder}
    (rs : gmap (list ascii) WebServer.handler) (fs : WebServer.filesystem)
    (request : HTTPRequest.t)
    (Hnone : rs !! HTTPRequest.path request = None) :
  (let result := WebServer.dispatch rs fs request HTTPResponse.ctor in
   result.2 = []
   ∧ HTTPResponse.status_code result.1 = 404
   ∧ HTTPResponse.status_message result.1 = lit "Not Found"
   ∧ HTTPResponse.body result.1
     = lit "<html><body><h1>404 Not Found</h1></body></html>")
  ∧ (∀ (srv : WebServer.t) p h q,
        WebServer.routes (WebServer.addRoute p h srv) !! q
        = if decide (q = p) then Some h else WebServer.routes srv !! q)
  ∧ (∀ port0 x h,
        let srv :=
          WebServer.addRoute (lit "/foo") h (WebServer.ctor port0 x) in
        WebServer.routes srv !! lit "/foo" = Some h
        ∧ WebServer.routes srv !! lit "/foo/" = None
        ∧ WebServer.routes srv !! lit "/foo?q=x" = None
        ∧ (∀ q, q ≠ lit "/foo" → WebServer.routes srv !! q = None))
  ∧ HTTPRequest.path
      (HTTPRequest.parse (lit "GET /foo?q=x HTTP/1.1" ++ [CR; LF; CR; LF])
                         HTTPRequest.ctor).1
    = lit "/foo?q=x"
  ∧ (∀ h c,
        WebServer.pending c
        = Some (lit "GET /foo/ HTTP/1.1" ++ [CR; LF; CR; LF]) →
        WebServer.serve {[ lit "/foo" := h ]} c
        = ([WebServer.EvRecv (WebServer.client_socket c) 8191;
            WebServer.EvSend (WebServer.client_socket c)
              (HTTPResponse.toString
                 (WebServer.respond_not_found HTTPResponse.ctor));
            WebServer.EvClose (WebServer.client_socket c)], Returned)).
Proof.
  split; [|split; [|split; [|split]]].
  - cbv zeta. unfold WebServer.dispatch. by rewrite Hnone.
  - intros srv p h q. simpl. rewrite lookup_insert.
    destruct (decide (p = q)) as [->|Hne].
    + by rewrite decide_True.
    + by rewrite decide_False.
  - intros port0 x h. cbv zeta. simpl. split; [apply lookup_insert_eq|].
    split; [by vm_compute|]. split; [by vm_compute|].
    intros q Hq. rewrite lookup_insert_ne by done. apply lookup_empty.
  - by vm_compute.
  - intros h c Hp.
    eapply (serve_not_found _ c _ _ Hp); [done|by apply Nat.leb_le| |].
    + by vm_compute.
    + by vm_compute.
Qed.

(** C8. The handler of a static file route reads the file each time it
    runs: on a file that cannot be opened it answers status 404, message
    [Not Found] and the fixed page; on a file that opens it leaves the
    status at the default 200 [OK] and answers the exact content of the
    file with the content type the fixed suffix table gives for the file
    path ([text/plain] when no suffix of the table matches). *)
Theorem C8_static_file_route (path file_path : list ascii)
    (srv : WebServer.t) :
  ∃ h,
    WebServer.routes (WebServer.addStaticFileRoute path file_path srv) !! path
    = Some h
    ∧ (∀ (fs : WebServer.filesystem) (req : HTTPRequest.t),
         let r := h fs req HTTPResponse.ctor in
         match fs file_path with
         | None =>
             HTTPResponse.status_code r = 404
             ∧ HTTPResponse.status_message r = lit "Not Found"
             ∧ HTTPResponse.body r
               = lit "<html><body><h1>404 Not Found</h1></body></html>"
         | Some content =>
             HTTPResponse.status_code r = 200
             ∧ HTTPResponse.status_message r = lit "OK"
             ∧ HTTPResponse.body r = content
             ∧ HTTPResponse.headers r !! lit "Content-Type"
               = Some (WebServer.content_type_of file_path)
         end)
    ∧ (∀ ext ty, (ext, ty) ∈ content_type_table →
                 ext `suffix_of` file_path →
                 WebServer.content_type_of file_path = ty)
    ∧ ((∀ ext ty, (ext, ty) ∈ content_type_table →
                  ¬ ext `suffix_of` file_path) →
       WebServer.content_type_of file_path = lit "text/plain").
Proof.
  exists (WebServer.static_file_handler file_path). repeat split.
  - simpl. apply lookup_insert_eq.
  - intros fs req. cbv zeta. unfold WebServer.static_file_handler.
    destruct (fs file_path) as [content|].
    + destruct (setContent_fields content
                  (WebServer.content_type_of file_path) HTTPResponse.ctor)
        as (-> & -> & -> & ->). done.
    + done.
  - apply content_type_of_table.
  - apply content_type_of_default.
Qed.


(** * Exceptions in the accept loop *)

Section start_facts.

Import WebServer.

Context `{UnorderedMapOrder}.

Lemma parse_body_bad strm this x e :
  HTTPRequest.headers this !! lit "Content-Length" = Some x →
  stoi x = inl e →
  HTTPRequest.parse_body strm this = (this, Thrown e).
Proof. intros Hx He. unfold HTTPRequest.parse_body. by rewrite Hx, He. Qed.

(** A [Content-Length] that [std::stoi] rejects makes [parse] throw. *)
Lemma parse_thrown request_str x e :
  HTTPRequest.headers (HTTPRequest.parse request_str HTTPRequest.ctor).1
    !! lit "Content-Length" = Some x →
  stoi x = inl e →
  (HTTPRequest.parse request_str HTTPRequest.ctor).2 = Thrown e.
Proof.
  rewrite parse_steps. cbv zeta.
  set (rl := HTTPRequest.parse_request_line _ _ _).
  set (hl := HTTPRequest.parse_headers _ _ _).
  set (this := HTTPRequest.mk _ _ _ _ _).
  destruct (parse_body_fields hl.1 this) as (_ & _ & _ & ->).
  intros Hx He. by rewrite (parse_body_bad _ _ _ _ Hx He).
Qed.

Lemma serve_thrown rs c e :
  0 < (receive c).1 →
  (HTTPRequest.parse (request_str_of c) HTTPRequest.ctor).2 = Thrown e →
  serve rs c = ([EvRecv (client_socket c) 8191], Thrown e).
Proof.
  intros Hn Hp. rewrite serve_unfold.
  destruct (Z.ltb_spec 0 (receive c).1) as [_|?]; [|lia].
  destruct (HTTPRequest.parse _ _) as [request [|e']]; simpl in Hp; [done|].
  by injection Hp as ->.
Qed.

Lemma initializeSocket_ok os this :
  setup_ok os →
  initializeSocket os this
  = (set_server_socket (socket_result os) this, [EvStarted (port this)],
     Returned).
Proof.
  intros (H1 & H2 & H3 & H4). unfold initializeSocket. simpl.
  destruct (Z.eqb_spec (socket_result os) INVALID_SOCKET); [done|].
  destruct (Z.eqb_spec (setsockopt_result os) SOCKET_ERROR); [done|].
  destruct (Z.eqb_spec (bind_result os) SOCKET_ERROR); [done|].
  destruct (Z.eqb_spec (listen_result os) SOCKET_ERROR); [done|].
  done.
Qed.

(** An exception that leaves the loop is reported, the listening socket
    is closed, and [start] returns. *)
Lemma start_escaped os script this evs e :
  setup_ok os →
  accept_loop (routes this) script = (evs, Escaped e) →
  start os script this
  = ([EvStarted (port this)] ++ evs
     ++ [EvServerError e; EvClose (socket_result os)],
     Some (set_server_socket INVALID_SOCKET
             (set_running true (set_server_socket (socket_result os) this)))).
Proof.
  intros Hos Hloop. unfold start. rewrite (initializeSocket_ok _ _ Hos).
  cbn [routes set_running set_server_socket]. rewrite Hloop.
  unfold close_server_socket. cbn [server_socket set_running set_server_socket].
  destruct Hos as (H1 & _).
  destruct (Z.eqb_spec (socket_result os) INVALID_SOCKET); [done|].
  done.
Qed.

End start_facts.

(** C9, as the code has it. Each accepted connection is read once, into
    a buffer of 8192 characters, for at most 8191 of them: the request
    that is processed is the first 8191 characters of what is queued,
    and what lies beyond has no influence. When the read returns zero
    or a negative value nothing is parsed, no handler runs, nothing is
    sent, and the connection is closed. *)
Theorem C9_single_read_of_8191 `{UnorderedMapOrder}
    (rs : gmap (list ascii) WebServer.handler) (c : WebServer.accepted)
    (Hnone : (WebServer.receive c).1 <= 0) :
  WebServer.serve rs c
  = ([WebServer.EvRecv (WebServer.client_socket c) 8191;
      WebServer.EvClose (WebServer.client_socket c)], Returned)
  ∧ WebServer.buffer_size = 8192
  ∧ Z.of_nat recv_limit = 8191
  ∧ (∀ c', ∃ evs,
        (WebServer.serve rs c').1
        = WebServer.EvRecv (WebServer.client_socket c') 8191 :: evs
        ∧ ∀ s n, WebServer.EvRecv s n ∉ evs)
  ∧ (∀ c' q, WebServer.pending c' = Some q →
        WebServer.request_str_of c' = take recv_limit q
        ∧ WebServer.serve rs c'
          = WebServer.serve rs (with_pending (Some (take recv_limit q)) c')).
Proof.
  split; [|split; [|split; [|split]]].
  - rewrite serve_unfold.
    destruct (Z.ltb_spec 0 (WebServer.receive c).1) as [?|_]; [lia|done].
  - reflexivity.
  - by vm_compute.
  - intros c'. apply serve_one_recv.
  - intros c' q Hq. split.
    + by apply request_str_of_pending.
    + by apply serve_truncates.
Qed.

(** C3, where the code departs from it, for every such connection.
    When the request read from a connection carries a [Content-Length]
    that [std::stoi] rejects, [parse] throws as C3 says; but the
    exception passes the [closesocket(client_socket)] of line 241 and
    leaves the accept loop, which the only [try] block encloses as a
    whole: nothing is sent, the socket of the connection is not closed,
    no later connection is accepted, and [start] reports the error,
    closes the listening socket and returns. The other failures of a
    connection (a failed [accept], a read of nothing) leave the loop
    running. *)
Theorem C3_rejected_content_length_ends_start `{UnorderedMapOrder}
    (os : WebServer.socket_setup) (this : WebServer.t)
    (before after : list WebServer.accepted) (c : WebServer.accepted)
    (x : list ascii) (e : exception)
    (Hos : setup_ok os)
    (Hbefore :
       (WebServer.accept_loop (WebServer.routes this) before).2
       = WebServer.Accepting)
    (Hsock : WebServer.client_socket c ≠ WebServer.INVALID_SOCKET)
    (Hrecv : 0 < (WebServer.receive c).1)
    (Hcl : HTTPRequest.headers
             (HTTPRequest.parse (WebServer.request_str_of c)
                                HTTPRequest.ctor).1
           !! lit "Content-Length" = Some x)
    (Hbad : stoi x = inl e) :
  (HTTPRequest.parse (WebServer.request_str_of c) HTTPRequest.ctor).2
  = Thrown e
  ∧ WebServer.serve (WebServer.routes this) c
    = ([WebServer.EvRecv (WebServer.client_socket c) 8191], Thrown e)
  ∧ WebServer.accept_loop (WebServer.routes this) (before ++ c :: after)
    = ((WebServer.accept_loop (WebServer.routes this) before).1
       ++ [WebServer.EvClientConnected (WebServer.client_ip c);
           WebServer.EvRecv (WebServer.client_socket c) 8191],
       WebServer.Escaped e)
  ∧ WebServer.start os (before ++ c :: after) this
    = ([WebServer.EvStarted (WebServer.port this)]
       ++ (WebServer.accept_loop (WebServer.routes this) before).1
       ++ [WebServer.EvClientConnected (WebServer.client_ip c);
           WebServer.EvRecv (WebServer.client_socket c) 8191;
           WebServer.EvServerError e;
           WebServer.EvClose (WebServer.socket_result os)],
       Some (WebServer.set_server_socket WebServer.INVALID_SOCKET
               (WebServer.set_running true
                  (WebServer.set_server_socket
                     (WebServer.socket_result os) this)))).
Proof.
  pose proof (parse_thrown _ _ _ Hcl Hbad) as Hthrown.
  pose proof (serve_thrown (WebServer.routes this) c e Hrecv Hthrown)
    as Hserve.
  assert (WebServer.accept_loop (WebServer.routes this)
            (before ++ c :: after)
          = ((WebServer.accept_loop (WebServer.routes this) before).1
             ++ [WebServer.EvClientConnected (WebServer.client_ip c);
                 WebServer.EvRecv (WebServer.client_socket c) 8191],
             WebServer.Escaped e)) as Hloop.
  { rewrite (accept_loop_app _ _ _ Hbefore).
    by rewrite (accept_loop_thrown _ _ after _ _ Hsock Hserve). }
  repeat split; try done.
  rewrite (start_escaped _ _ _ _ _ Hos Hloop).
  f_equal. by rewrite <- !app_assoc.
Qed.

(** * The theorems at concrete inputs *)

Lemma C1_witness :
  let hs := [(lit "Host", lit "a"); (lit "Accept", lit "*/*");
             (lit "host", lit "c"); (lit "Host", lit "b")] in
  let request :=
    (HTTPRequest.parse
       (request_text true (lit "GET") [SP] (lit "/index.html") [SP]
                     (lit "HTTP/1.1") hs ++ [])
       HTTPRequest.ctor).1 in
  HTTPRequest.method request = lit "GET"
  ∧ HTTPRequest.path request = lit "/index.html"
  ∧ HTTPRequest.version request = lit "HTTP/1.1"
  ∧ HTTPRequest.headers request !! lit "Host" = Some (lit "b")
  ∧ HTTPRequest.headers request !! lit "host" = Some (lit "c")
  ∧ HTTPRequest.headers request !! lit "HOST" = None.
Proof.
  intros hs request.
  assert (word (lit "GET")) as Hm by (split; [done|repeat constructor]).
  assert (word (lit "/index.html")) as Hp
    by (split; [done|repeat constructor]).
  assert (word (lit "HTTP/1.1")) as Hv by (split; [done|repeat constructor]).
  assert (blank_run [SP]) as Hws
    by (split; [done|repeat constructor; done]).
  assert (Forall (fun kv => header_name_ok kv.1 ∧ header_value_ok kv.2) hs)
    as Hhs.
  { unfold hs, header_name_ok, header_value_ok.
    repeat constructor; by_evaluation. }
  destruct (C1_parse_recovers_request true (lit "GET") [SP]
              (lit "/index.html") [SP] (lit "HTTP/1.1") [] hs
              Hm Hws Hp Hws Hv Hhs) as (E1 & E2 & E3 & _ & Hlast & Habs).
  split; [exact E1|]. split; [exact E2|]. split; [exact E3|].
  split; [|split].
  - apply (Hlast [(lit "Host", lit "a"); (lit "Accept", lit "*/*");
                  (lit "host", lit "c")] (lit "Host") (lit "b") []);
      [reflexivity|apply not_elem_of_nil].
  - apply (Hlast [(lit "Host", lit "a"); (lit "Accept", lit "*/*")]
                 (lit "host") (lit "c") [(lit "Host", lit "b")]);
      [reflexivity|by_evaluation].
  - apply Habs. by_evaluation.
Defined.

Lemma C4_witness :
  let result :=
    HTTPRequest.parse
      (header_block (lit "POST /upload HTTP/1.1" ++ [CR])
                    [lit "Host: example" ++ [CR];
                     lit "Content-Length: 3" ++ [CR]] [CR]
       ++ lit "abcdef")
      HTTPRequest.ctor in
  result.2 = Returned
  ∧ HTTPRequest.body result.1 = lit "abc"
  ∧ length (HTTPRequest.body result.1) = 3%nat.
Proof.
  refine (proj1 (C4_body_is_declared_length
            (lit "POST /upload HTTP/1.1" ++ [CR]) [CR] (lit "abcdef")
            (lit "3")
            [lit "Host: example" ++ [CR]; lit "Content-Length: 3" ++ [CR]]
            3 _ _ _ _ _ _)).
  - by_evaluation.
  - unfold header_line_ok. repeat constructor; by_evaluation.
  - by right.
  - by vm_compute.
  - by vm_compute.
  - simpl. lia.
Defined.

Lemma C2_witness :
  let result :=
    HTTPRequest.parse
      (header_block (lit "POST /upload HTTP/1.1" ++ [CR])
                    [lit "Content-Length: 5" ++ [CR]] [CR]
       ++ lit "ab")
      HTTPRequest.ctor in
  result.2 = Returned
  ∧ HTTPRequest.body result.1 = lit "ab" ++ replicate (5 - 2) NUL
  ∧ length (HTTPRequest.body result.1) = 5%nat
  ∧ take 2 (HTTPRequest.body result.1) = lit "ab".
Proof.
  refine (C2_short_body_is_zero_padded
            (lit "POST /upload HTTP/1.1" ++ [CR]) [CR] (lit "ab")
            (lit "5") [lit "Content-Length: 5" ++ [CR]] 5 _ _ _ _ _ _).
  - by_evaluation.
  - unfold header_line_ok. repeat constructor; by_evaluation.
  - by right.
  - by vm_compute.
  - by vm_compute.
  - simpl. lia.
Defined.

(** C2 as stated fails: with [Content-Length: 5] and two characters
    behind the header block, the body is not those two characters but
    five: the two, then three zeros. *)
Lemma C2_counterexample_body_is_padded :
  let available := lit "ab" in
  let result :=
    HTTPRequest.parse
      (lit "POST /upload HTTP/1.1" ++ [CR; LF]
       ++ lit "Content-Length: 5" ++ [CR; LF; CR; LF] ++ available)
      HTTPRequest.ctor in
  HTTPRequest.headers result.1 !! lit "Content-Length" = Some (lit "5")
  ∧ result.2 = Returned
  ∧ HTTPRequest.body result.1 = lit "ab" ++ [NUL; NUL; NUL]
  ∧ HTTPRequest.body result.1 ≠ available.
Proof.
  cbv zeta. split; [by vm_compute|]. split; [by vm_compute|].
  split; [by vm_compute|]. by vm_compute.
Qed.

Lemma C7_witness :
  let rs : gmap (list ascii) WebServer.handler :=
    {[ lit "/foo" := fun _ _ res =>
         HTTPResponse.setContent (lit "foo") (lit "text/plain") res ]} in
  let request :=
    (HTTPRequest.parse (lit "GET /foo/ HTTP/1.1" ++ [CR; LF; CR; LF])
                       HTTPRequest.ctor).1 in
  let result :=
    WebServer.dispatch rs (fun _ => None) request HTTPResponse.ctor in
  result.2 = []
  ∧ HTTPResponse.status_code result.1 = 404
  ∧ HTTPResponse.status_message result.1 = lit "Not Found"
  ∧ HTTPResponse.body result.1
    = lit "<html><body><h1>404 Not Found</h1></body></html>".
Proof.
  intros rs request.
  refine (proj1 (C7_exact_route_match rs (fun _ => None) request _)).
  by vm_compute.
Defined.

Lemma C9_witness :
  WebServer.serve (WebServer.routes (main_routes (WebServer.ctor 8080 0)))
                  (sample_connection 4 None)
  = ([WebServer.EvRecv 4 8191; WebServer.EvClose 4], Returned)
  ∧ WebServer.serve (WebServer.routes (main_routes (WebServer.ctor 8080 0)))
                    (sample_connection 5 (Some []))
    = ([WebServer.EvRecv 5 8191; WebServer.EvClose 5], Returned).
Proof.
  split.
  - refine (proj1 (C9_single_read_of_8191 _ (sample_connection 4 None) _)).
    by vm_compute.
  - refine (proj1 (C9_single_read_of_8191 _ (sample_connection 5 (Some [])) _)).
    by vm_compute.
Defined.

(** C9 as stated fails: of a request of 8192 characters only 8191 are
    read and processed, so the path that is routed lacks the last
    character that was sent. *)
Lemma C9_counterexample_8192nd_character_dropped :
  let c := sample_connection 4 (Some request_of_8192) in
  Z.of_nat (length request_of_8192) = 8192
  ∧ Z.of_nat (length (WebServer.request_str_of c)) = 8191
  ∧ WebServer.request_str_of c ≠ take (Z.to_nat 8192) request_of_8192
  ∧ Z.of_nat (length (HTTPRequest.path
       (HTTPRequest.parse request_of_8192 HTTPRequest.ctor).1)) = 8188
  ∧ Z.of_nat (length (HTTPRequest.path
       (HTTPRequest.parse (WebServer.request_str_of c)
                          HTTPRequest.ctor).1)) = 8187.
Proof.
  cbv zeta. split; [by vm_compute|]. split; [by vm_compute|].
  split; [|split; by vm_compute].
  intros E. apply (f_equal (fun l => Z.of_nat (length l))) in E.
  vm_compute in E. discriminate E.
Qed.

Lemma C3_witness :
  WebServer.start sample_setup
    ([sample_connection 4 (Some request_root)]
     ++ sample_connection 5 (Some request_bad_length)
     :: [sample_connection 6 (Some request_root)])
    (main_routes (WebServer.ctor 8080 0))
  = ([WebServer.EvStarted 8080]
     ++ (WebServer.accept_loop
           (WebServer.routes (main_routes (WebServer.ctor 8080 0)))
           [sample_connection 4 (Some request_root)]).1
     ++ [WebServer.EvClientConnected (lit "127.0.0.1");
         WebServer.EvRecv 5 8191;
         WebServer.EvServerError invalid_argument;
         WebServer.EvClose 3],
     Some (WebServer.set_server_socket WebServer.INVALID_SOCKET
             (WebServer.set_running true
                (WebServer.set_server_socket 3
                   (main_routes (WebServer.ctor 8080 0)))))).
Proof.
  refine (proj2 (proj2 (proj2 (C3_rejected_content_length_ends_start
    sample_setup (main_routes (WebServer.ctor 8080 0))
    [sample_connection 4 (Some request_root)]
    [sample_connection 6 (Some request_root)]
    (sample_connection 5 (Some request_bad_length))
    (lit "abc") invalid_argument _ _ _ _ _ _)))).
  - unfold setup_ok. by vm_compute.
  - by vm_compute.
  - by vm_compute.
  - by vm_compute.
  - by vm_compute.
  - by vm_compute.
Defined.

(** C3, the code at a failing input: a connection (socket 5) whose
    request carries [Content-Length: abc], followed by a connection
    (socket 6) with a plain request. C3 asks for socket 5 to be closed
    and for the loop to go on; in the run socket 5 is not closed, socket
    6 is never accepted, and [start] has returned with the listening
    socket closed. *)
Lemma C3_counterexample_loop_ends :
  let result :=
    WebServer.start sample_setup
      [sample_connection 5 (Some request_bad_length);
       sample_connection 6 (Some request_root)]
      (main_routes (WebServer.ctor 8080 0)) in
  result.1
  = [WebServer.EvStarted 8080;
     WebServer.EvClientConnected (lit "127.0.0.1");
     WebServer.EvRecv 5 8191;
     WebServer.EvServerError invalid_argument;
     WebServer.EvClose 3]
  ∧ match result.2 with
    | Some srv => WebServer.server_socket srv = WebServer.INVALID_SOCKET
    | None => False
    end.
Proof. cbv zeta. split; by vm_compute. Qed.

(** * Sample runs of the model *)

Example stoi_samples :
  stoi (lit "42") = inr 42
  ∧ stoi (lit "12abc") = inr 12
  ∧ stoi (lit " -7") = inr (-7)
  ∧ stoi (lit "abc") = inl invalid_argument
  ∧ stoi [] = inl invalid_argument
  ∧ stoi (lit "99999999999") = inl out_of_range.
Proof. repeat split; by vm_compute. Qed.

Example to_string_samples :
  to_string 0 = lit "0" ∧ to_string 200 = lit "200"
  ∧ to_string 8191 = lit "8191" ∧ to_string (-45) = lit "-45".
Proof. repeat split; by vm_compute. Qed.

(** A request with two headers and a body longer than declared. *)
Example parse_sample :
  HTTPRequest.parse
    (lit "POST /a HTTP/1.1" ++ [CR; LF] ++ lit "Host:  x" ++ [CR; LF]
     ++ lit "Content-Length: 3" ++ [CR; LF; CR; LF] ++ lit "abcdef")
    HTTPRequest.ctor
  = ({| HTTPRequest.method := lit "POST"; HTTPRequest.path := lit "/a";
        HTTPRequest.version := lit "HTTP/1.1";
        HTTPRequest.headers :=
          <[lit "Content-Length" := lit "3"]> (<[lit "Host" := lit "x"]> ∅);
        HTTPRequest.body := lit "abc" |}, Returned).
Proof. by vm_compute. Qed.

(** A negative [Content-Length] is converted by [std::stoi] and rejected
    by the vector constructor. *)
Example parse_negative_length :
  (HTTPRequest.parse
     (lit "POST /a HTTP/1.1" ++ [CR; LF]
      ++ lit "Content-Length: -1" ++ [CR; LF; CR; LF])
     HTTPRequest.ctor).2
  = Thrown length_error.
Proof. by vm_compute. Qed.

(** [GET /] against the routes of [main], the headers being visited in
    the order of [canonical_order]. *)
Example serve_root_sample :
  WebServer.serve (WebServer.routes (main_routes (WebServer.ctor 8080 0)))
                  (sample_connection 4 (Some request_root))
  = ([WebServer.EvRecv 4 8191;
      WebServer.EvHandler (lit "/");
      WebServer.EvSend 4
        (lit "HTTP/1.1 200 OK" ++ [CR; LF]
         ++ lit "Content-Length: 83" ++ [CR; LF]
         ++ lit "Content-Type: text/html" ++ [CR; LF; CR; LF]
         ++ lit "<html><body><h1>Hello, World!</h1><p>Welcome to my C++ Web Server</p></body></html>");
      WebServer.EvClose 4], Returned).
Proof. by vm_compute. Qed.

(** A failed [accept] is reported and the loop goes on. *)
Example accept_failure_sample :
  WebServer.start sample_setup
    [sample_connection (-1) None; sample_connection 4 None]
    (main_routes (WebServer.ctor 8080 0))
  = ([WebServer.EvStarted 8080; WebServer.EvAcceptFailed;
      WebServer.EvClientConnected (lit "127.0.0.1");
      WebServer.EvRecv 4 8191; WebServer.EvClose 4], None).
Proof. by vm_compute. Qed.

(** * Further properties of the request parser *)

Section more_token_facts.

Import HTTPRequest.

Local Arguments extract_string : simpl never.

Implicit Types (w ws s str tail lead : list ascii).

Lemma whitespace_spaces ws :
  whitespace ws → Forall (fun c => isspace c = true) ws.
Proof. intros H. eapply Forall_impl; [exact H|]. by intros c [? _]. Qed.

Lemma whitespace_no_LF ws : whitespace ws → LF ∉ ws.
Proof.
  intros H Hin. unfold whitespace in H. rewrite Forall_forall in H.
  by destruct (H _ Hin).
Qed.

Lemma whitespace_word_end ws : whitespace ws → word_end ws.
Proof.
  intros H. destruct ws as [|c ws]; [done|].
  apply Forall_cons in H as [[Hc _] _]. exact Hc.
Qed.

Lemma extract_string_bad strm str :
  good strm = false → extract_string strm str = (setstate_fail strm, str).
Proof. intros Hg. unfold extract_string. by rewrite Hg. Qed.

(** Nothing but whitespace is left: the extraction fails and leaves the
    string as it was. *)
Lemma extract_string_blank tail str :
  whitespace tail →
  (extract_string
     {| rdbuf := tail; eofbit := bool_decide (tail = []); failbit := false |}
     str).2 = str
  ∧ good (extract_string
     {| rdbuf := tail; eofbit := bool_decide (tail = []); failbit := false |}
     str).1 = false.
Proof.
  intros Ht. destruct tail as [|c tail].
  - by rewrite extract_string_bad.
  - unfold extract_string.
    rewrite bool_decide_eq_false_2 by done. cbn [good eofbit failbit negb andb rdbuf].
    pose proof (skipws_blanks (c :: tail) [] (whitespace_spaces _ Ht)) as Hs.
    rewrite app_nil_r in Hs. change (skipws []) with (@nil ascii) in Hs.
    by rewrite Hs.
Qed.

Lemma more_words_word_end (more : list (list ascii * list ascii)) tail :
  Forall (fun sw => blank_run sw.1 ∧ word sw.2) more → whitespace tail →
  word_end (concat (map (fun sw => sw.1 ++ sw.2) more) ++ tail).
Proof.
  intros Hm Ht. destruct Hm as [|[sep w] more [Hsep _] _]; simpl.
  - by apply whitespace_word_end.
  - rewrite <- !app_assoc. by apply blank_run_word_end.
Qed.

Lemma more_words_no_LF (more : list (list ascii * list ascii)) :
  Forall (fun sw => blank_run sw.1 ∧ word sw.2) more →
  LF ∉ concat (map (fun sw => sw.1 ++ sw.2) more).
Proof.
  induction 1 as [|[sep w] more [Hsep Hw] _ IH]; simpl.
  - apply not_elem_of_nil.
  - rewrite !not_elem_of_app.
    auto using blank_run_no_LF, word_no_LF.
Qed.

(** Line 40 on a line with at least one word: the fields receive the
    first three words, and a field for which no word is left keeps its
    value. *)
Lemma parse_request_line_some_words lead w0 more tail r line this :
  whitespace lead → word w0 →
  Forall (fun sw => blank_run sw.1 ∧ word sw.2) more → whitespace tail →
  (parse_request_line
     (istringstream_ctor (words_line lead w0 more tail ++ LF :: r)) line this).2
  = {| method := w0;
       path := nth 0 more.*2 (path this);
       version := nth 1 more.*2 (version this);
       headers := headers this; body := body this |}.
Proof.
  intros Hlead Hw0 Hmore Htail.
  unfold parse_request_line, words_line. rewrite getline_line.
  2:{ rewrite !not_elem_of_app.
      auto using whitespace_no_LF, word_no_LF, more_words_no_LF. }
  cbn [fail failbit istringstream_ctor].
  change {| rdbuf := ?s; eofbit := false; failbit := false |}
    with (istringstream_ctor s).
  rewrite (extract_string_word lead w0 _ (method this)
             (whitespace_spaces _ Hlead) Hw0
             (more_words_word_end _ _ Hmore Htail)).
  destruct Hmore as [|[sep1 w1] more [Hsep1 Hw1] Hmore]; cbn [map concat fmap list_fmap fst snd nth app].
  - destruct (extract_string_blank tail (path this) Htail) as [E2 G2].
    destruct (extract_string _ (path this)) as [ls2 p]. simpl in E2, G2.
    rewrite (extract_string_bad _ _ G2). by subst p.
  - rewrite <- !app_assoc.
    rewrite bool_decide_eq_false_2.
    2:{ destruct Hsep1 as [Hne _]. by destruct sep1. }
    change {| rdbuf := ?s; eofbit := false; failbit := false |}
      with (istringstream_ctor s).
    rewrite (extract_string_word sep1 w1 _ (path this)
               (blank_run_spaces _ Hsep1) Hw1
               (more_words_word_end _ _ Hmore Htail)).
    destruct Hmore as [|[sep2 w2] more [Hsep2 Hw2] Hmore]; cbn [map concat fmap list_fmap fst snd nth app].
    + destruct (extract_string_blank tail (version this) Htail) as [E3 _].
      destruct (extract_string _ (version this)) as [ls3 v]. simpl in E3.
      by subst v.
    + rewrite <- !app_assoc.
      rewrite bool_decide_eq_false_2.
      2:{ destruct Hsep2 as [Hne _]. by destruct sep2. }
      change {| rdbuf := ?s; eofbit := false; failbit := false |}
        with (istringstream_ctor s).
      by rewrite (extract_string_word sep2 w2 _ (version this)
                 (blank_run_spaces _ Hsep2) Hw2
                 (more_words_word_end _ _ Hmore Htail)).
Qed.

(** Line 40 on a line without a word: every field keeps its value. *)
Lemma parse_request_line_no_word ws r line this :
  whitespace ws →
  (parse_request_line (istringstream_ctor (ws ++ LF :: r)) line this).2
  = this.
Proof.
  intros Hws. unfold parse_request_line.
  rewrite (getline_line _ _ _ (whitespace_no_LF _ Hws)).
  cbn [fail failbit istringstream_ctor].
  assert (good (extract_string
            {| rdbuf := ws; eofbit := false; failbit := false |}
            (method this)).1 = false
          ∧ (extract_string
            {| rdbuf := ws; eofbit := false; failbit := false |}
            (method this)).2 = method this) as [G1 E1].
  { unfold extract_string. cbn [good eofbit failbit negb andb rdbuf].
    pose proof (skipws_blanks ws [] (whitespace_spaces _ Hws)) as Hs.
    rewrite app_nil_r in Hs. change (skipws []) with (@nil ascii) in Hs.
    by rewrite Hs. }
  destruct (extract_string _ (method this)) as [ls1 m]. simpl in G1, E1.
  rewrite (extract_string_bad _ _ G1).
  rewrite extract_string_bad by (unfold good; simpl; apply andb_false_r).
  subst m. by destruct this.
Qed.

End more_token_facts.

Section more_parse_facts.

Import HTTPRequest.

Implicit Types (l r s str line rl rest : list ascii).

(** Method, path and version of the parsed request are those of the
    request line step. *)
Lemma parse_request_fields request_str this :
  method (parse request_str this).1
  = method (parse_request_line (istringstream_ctor request_str) [] this).2
  ∧ path (parse request_str this).1
    = path (parse_request_line (istringstream_ctor request_str) [] this).2
  ∧ version (parse request_str this).1
    = version (parse_request_line (istringstream_ctor request_str) [] this).2.
Proof.
  rewrite parse_steps. cbv zeta.
  set (rl := parse_request_line _ _ _).
  set (hl := parse_headers _ _ _).
  set (this2 := mk _ _ _ _ _).
  by destruct (parse_body_fields hl.1 this2) as (-> & -> & -> & _).
Qed.

(** The request line step looks at the first line only. *)
Lemma parse_request_line_first_line rl r line this :
  LF ∉ rl →
  parse_request_line (istringstream_ctor (rl ++ LF :: r)) line this
  = (istringstream_ctor r, rl,
     (parse_request_line (istringstream_ctor (rl ++ [LF])) line this).2).
Proof.
  intros Hrl. unfold parse_request_line.
  rewrite !(getline_line _ _ _ Hrl). cbn [fail failbit istringstream_ctor].
  destruct (extract_string _ (method this)) as [ls1 m].
  destruct (extract_string ls1 (path this)) as [ls2 p].
  by destruct (extract_string ls2 (version this)) as [ls3 v].
Qed.

(** [parse] on a header block followed by [rest], in full. *)
Lemma parse_header_block_eq rl header_lines blank rest :
  LF ∉ rl → Forall header_line_ok header_lines →
  blank = [] ∨ blank = [CR] →
  parse (header_block rl header_lines blank ++ rest) ctor
  = parse_body (istringstream_ctor rest)
      {| method := method (request_line_fields rl);
         path := path (request_line_fields rl);
         version := version (request_line_fields rl);
         headers := headers_of_lines header_lines;
         body := [] |}.
Proof.
  intros Hrl Hls Hb. rewrite parse_steps. unfold header_block.
  rewrite <- !app_assoc. cbn [app].
  rewrite (parse_request_line_first_line _ _ _ _ Hrl).
  cbn [fst snd].
  destruct (parse_request_line_frame (istringstream_ctor (rl ++ [LF])) [] ctor)
    as [Hh Hbd].
  fold (request_line_fields rl) in Hh, Hbd |- *.
  rewrite Hh, Hbd. cbn [headers body ctor].
  by rewrite (parse_headers_block _ _ _ _ _ Hls Hb).
Qed.

Lemma find_char_absent c s : c ∉ s → find_char c s = None.
Proof.
  induction s as [|x s IH]; intros Hc; simpl; [done|].
  apply not_elem_of_cons in Hc as [Hx Hs].
  destruct (Ascii.eqb_spec x c) as [->|_]; [done|].
  by rewrite IH.
Qed.

Lemma chomp_cr_elem c l : c ∈ chomp_cr l → c ∈ l.
Proof.
  unfold chomp_cr. destruct (last l) as [x|] eqn:E; [|done].
  destruct (Ascii.eqb x CR); [|done].
  apply last_Some in E as [l' ->]. rewrite removelast_last.
  intros Hin. apply elem_of_app. by left.
Qed.

Lemma store_header_no_colon l hs :
  COLON ∉ l → store_header (chomp_cr l) hs = hs.
Proof.
  intros Hl. unfold store_header.
  rewrite find_char_absent; [done|].
  intros Hin. by apply Hl, chomp_cr_elem.
Qed.

(** A header line the way the loop takes it apart: name, colon, any
    blanks, value. *)
Lemma store_header_split k ws v hs :
  COLON ∉ k → Forall (fun c => c = SP ∨ c = TAB) ws →
  erase_leading_blanks v = v →
  store_header (k ++ COLON :: ws ++ v) hs = <[k := v]> hs.
Proof.
  intros Hk Hws Hv. unfold store_header.
  rewrite (find_char_first _ _ _ Hk), take_app_length.
  replace (S (length k)) with (length (k ++ [COLON]))
    by (rewrite length_app; simpl; lia).
  replace (k ++ COLON :: ws ++ v) with ((k ++ [COLON]) ++ ws ++ v)
    by (by rewrite <- app_assoc).
  rewrite drop_app_length. f_equal.
  induction Hws as [|c ws Hc _ IH]; simpl; [done|].
  by destruct Hc as [-> | ->].
Qed.

(** The header loop on lines that run up to the end of the input, the
    last of which may lack its newline: the stream is left failed. *)
Lemma parse_headers_eof header_lines last_line line hs :
  Forall header_line_ok header_lines →
  last_line = [] ∨ header_line_ok last_line →
  parse_headers
    (istringstream_ctor
       (concat (map (fun l => l ++ [LF]) header_lines) ++ last_line))
    line hs
  = (stream_at_eof,
     foldl (fun hs l => store_header (chomp_cr l) hs) hs
           (header_lines ++ if decide (last_line = []) then []
                            else [last_line])).
Proof.
  intros Hls Hlast. revert line hs.
  induction Hls as [|l ls Hl _ IH]; intros line hs.
  - cbn [map concat app]. destruct Hlast as [-> | Hok].
    + by rewrite parse_headers_unfold.
    + destruct Hok as (Hlf & Hne & Hcr).
      rewrite decide_False by done.
      rewrite parse_headers_unfold, (getline_last _ _ Hlf Hne).
      cbn [fail failbit negb andb].
      rewrite !bool_decide_eq_false_2 by done. cbn [negb andb].
      by rewrite parse_headers_unfold.
  - cbn [map concat app]. rewrite <- !app_assoc. cbn [app].
    rewrite (parse_headers_line _ _ _ _ Hl). apply IH.
Qed.

(** The body step on a failed stream: nothing is read. *)
Lemma parse_body_at_eof this x (n : nat) :
  headers this !! lit "Content-Length" = Some x →
  stoi x = inr (Z.of_nat n) →
  parse_body stream_at_eof this
  = ({| method := method this; path := path this; version := version this;
        headers := headers this; body := replicate n NUL |}, Returned).
Proof.
  intros Hx Hn. unfold parse_body, vector_char_ctor. rewrite Hx, Hn.
  destruct (Z.ltb_spec (Z.of_nat n) 0) as [?|_]; [lia|].
  rewrite Nat2Z.id. unfold istream_read, store_prefix, stream_at_eof.
  cbn [good eofbit failbit negb andb app length drop].
  rewrite drop_0.
  by rewrite (take_ge (replicate n NUL) n) by (rewrite length_replicate; lia).
Qed.

Lemma parse_body_negative strm this x n :
  headers this !! lit "Content-Length" = Some x →
  stoi x = inr n → n < 0 →
  parse_body strm this = (this, Thrown length_error).
Proof.
  intros Hx Hn Hneg. unfold parse_body, vector_char_ctor. rewrite Hx, Hn.
  by destruct (Z.ltb_spec n 0) as [_|?]; [|lia].
Qed.

End more_parse_facts.

(** X1. The request line is split at whitespace: the method is the
    first word of the first line, the path the second and the version
    the third; leading and trailing whitespace and words beyond the
    third are ignored, and a field for which the line has no word is
    left empty. *)
Theorem X1_request_line_first_three_words
    (lead w0 tail r : list ascii) (more : list (list ascii * list ascii))
    (Hlead : whitespace lead) (Hw0 : word w0)
    (Hmore : Forall (fun sw => blank_run sw.1 ∧ word sw.2) more)
    (Htail : whitespace tail) :
  let request :=
    (HTTPRequest.parse (words_line lead w0 more tail ++ LF :: r)
                       HTTPRequest.ctor).1 in
  HTTPRequest.method request = w0
  ∧ HTTPRequest.path request = nth 0 more.*2 []
  ∧ HTTPRequest.version request = nth 1 more.*2 [].
Proof.
  cbv zeta.
  destruct (parse_request_fields (words_line lead w0 more tail ++ LF :: r)
              HTTPRequest.ctor) as (-> & -> & ->).
  by rewrite (parse_request_line_some_words lead w0 more tail r []
                HTTPRequest.ctor Hlead Hw0 Hmore Htail).
Qed.

Lemma X1_witness :
  let one :=
    (HTTPRequest.parse (words_line [] (lit "GET") [] [CR] ++ LF :: [])
                       HTTPRequest.ctor).1 in
  let four :=
    (HTTPRequest.parse
       (words_line [SP] (lit "GET")
          [([TAB], lit "/a"); ([SP; SP], lit "HTTP/1.0"); ([SP], lit "x")]
          [CR] ++ LF :: lit "Host: h")
       HTTPRequest.ctor).1 in
  (HTTPRequest.method one = lit "GET" ∧ HTTPRequest.path one = []
   ∧ HTTPRequest.version one = [])
  ∧ (HTTPRequest.method four = lit "GET" ∧ HTTPRequest.path four = lit "/a"
     ∧ HTTPRequest.version four = lit "HTTP/1.0").
Proof.
  split.
  - apply (X1_request_line_first_three_words [] (lit "GET") [CR] [] []).
    + constructor.
    + split; [done|repeat constructor].
    + constructor.
    + repeat constructor; done.
  - apply (X1_request_line_first_three_words [SP] (lit "GET") [CR]
             (lit "Host: h")
             [([TAB], lit "/a"); ([SP; SP], lit "HTTP/1.0"); ([SP], lit "x")]).
    + repeat constructor; done.
    + split; [done|repeat constructor].
    + repeat constructor; done.
    + repeat constructor; done.
Defined.

(** X2. A first line that is empty or holds only whitespace leaves
    method, path and version empty; so does an empty input, on which
    [parse] returns the request unchanged. *)
Theorem X2_blank_request_line (ws r : list ascii) (Hws : whitespace ws) :
  (let request :=
     (HTTPRequest.parse (ws ++ LF :: r) HTTPRequest.ctor).1 in
   HTTPRequest.method request = []
   ∧ HTTPRequest.path request = []
   ∧ HTTPRequest.version request = [])
  ∧ HTTPRequest.parse [] HTTPRequest.ctor = (HTTPRequest.ctor, Returned).
Proof.
  split; [|by vm_compute]. cbv zeta.
  destruct (parse_request_fields (ws ++ LF :: r) HTTPRequest.ctor)
    as (-> & -> & ->).
  by rewrite (parse_request_line_no_word ws r [] HTTPRequest.ctor Hws).
Qed.

Lemma X2_witness :
  let request :=
    (HTTPRequest.parse ([SP; CR] ++ LF :: lit "Host: h")
                       HTTPRequest.ctor).1 in
  HTTPRequest.method request = []
  ∧ HTTPRequest.path request = []
  ∧ HTTPRequest.version request = [].
Proof.
  refine (proj1 (X2_blank_request_line [SP; CR] (lit "Host: h") _)).
  repeat constructor; done.
Defined.

(** X3. A header line without a colon is skipped: the parse of a
    request is the same with and without it. *)
Theorem X3_line_without_colon_is_skipped
    (rl blank rest l : list ascii) (ls1 ls2 : list (list ascii))
    (Hrl : LF ∉ rl) (Hls1 : Forall header_line_ok ls1)
    (Hl : header_line_ok l) (Hls2 : Forall header_line_ok ls2)
    (Hblank : blank = [] ∨ blank = [CR])
    (Hcolon : COLON ∉ l) :
  HTTPRequest.parse (header_block rl (ls1 ++ l :: ls2) blank ++ rest)
                    HTTPRequest.ctor
  = HTTPRequest.parse (header_block rl (ls1 ++ ls2) blank ++ rest)
                      HTTPRequest.ctor.
Proof.
  rewrite !parse_header_block_eq; try done.
  - do 2 f_equal. unfold headers_of_lines. rewrite !foldl_app. simpl.
    by rewrite store_header_no_colon.
  - apply Forall_app; split; done.
  - apply Forall_app; split; [done|by constructor].
Qed.

Lemma X3_witness :
  HTTPRequest.parse
    (header_block (lit "GET / HTTP/1.1") [lit "Host: a"; lit "garbage"] []
     ++ [])
    HTTPRequest.ctor
  = HTTPRequest.parse
      (header_block (lit "GET / HTTP/1.1") [lit "Host: a"] [] ++ [])
      HTTPRequest.ctor.
Proof.
  apply (X3_line_without_colon_is_skipped (lit "GET / HTTP/1.1") [] []
           (lit "garbage") [lit "Host: a"] []).
  - by_evaluation.
  - unfold header_line_ok. repeat constructor; by_evaluation.
  - unfold header_line_ok. repeat split; by_evaluation.
  - constructor.
  - by left.
  - by_evaluation.
Defined.

(** X4. A header line is cut at its first colon: what precedes it is
    the name, what follows, without its leading spaces and tabs (there
    may be none) and without the carriage return that ends the line, is
    the value; later colons belong to the value. The entry overwrites
    what the lines before it stored under that name. *)
Theorem X4_header_line_cut_at_first_colon
    (rl blank rest k ws v cr : list ascii) (ls : list (list ascii))
    (Hrl : LF ∉ rl) (Hls : Forall header_line_ok ls)
    (Hblank : blank = [] ∨ blank = [CR])
    (Hk : header_name_ok k)
    (Hws : Forall (fun c => c = SP ∨ c = TAB) ws)
    (Hv : header_value_ok v)
    (Hcr : cr = [] ∨ cr = [CR]) :
  HTTPRequest.headers
    (HTTPRequest.parse
       (header_block rl (ls ++ [k ++ COLON :: ws ++ v ++ cr]) blank ++ rest)
       HTTPRequest.ctor).1
  = <[k := v]>
      (HTTPRequest.headers
         (HTTPRequest.parse (header_block rl ls blank ++ rest)
                            HTTPRequest.ctor).1).
Proof.
  destruct Hk as [Hkc Hkl]. destruct Hv as (Hvl & Hvb & Hvr).
  assert (LF ∉ ws) as Hwl.
  { intros Hin. rewrite Forall_forall in Hws.
    by destruct (Hws _ Hin) as [E | E]. }
  assert (LF ∉ cr) as Hcl.
  { destruct Hcr as [-> | ->]; [apply not_elem_of_nil|].
    apply not_elem_of_cons; split; [done|apply not_elem_of_nil]. }
  assert (header_line_ok (k ++ COLON :: ws ++ v ++ cr)) as Hok.
  { repeat split.
    - rewrite not_elem_of_app, not_elem_of_cons, !not_elem_of_app. done.
    - by destruct k.
    - intros E. destruct k as [|c [|c' k]]; simplify_eq/=. }
  assert (HTTPRequest.chomp_cr (k ++ COLON :: ws ++ v ++ cr)
          = k ++ COLON :: ws ++ v) as Hchomp.
  { destruct Hcr as [-> | ->].
    - rewrite app_nil_r. apply chomp_cr_keep.
      destruct v as [|c v _] using rev_ind.
      + rewrite app_nil_r. destruct ws as [|c ws _] using rev_ind.
        * by rewrite last_snoc.
        * replace (k ++ COLON :: ws ++ [c]) with ((k ++ COLON :: ws) ++ [c])
            by (by rewrite <- app_assoc).
          rewrite last_snoc. apply Forall_app in Hws as [_ Hc].
          apply Forall_cons in Hc as [[E | E] _]; by rewrite E.
      + replace (k ++ COLON :: ws ++ v ++ [c])
          with ((k ++ COLON :: ws ++ v) ++ [c])
          by (rewrite <- !app_assoc; simpl; by rewrite <- !app_assoc).
        rewrite last_snoc. by rewrite last_snoc in Hvr.
    - replace (k ++ COLON :: ws ++ v ++ [CR])
        with ((k ++ COLON :: ws ++ v) ++ [CR])
        by (rewrite <- !app_assoc; simpl; by rewrite <- !app_assoc).
      apply chomp_cr_snoc. }
  rewrite !parse_header_block_eq; try done.
  2:{ apply Forall_app; split; [done|by constructor]. }
  destruct (parse_body_fields (istringstream_ctor rest)
    {| HTTPRequest.method := HTTPRequest.method (request_line_fields rl);
       HTTPRequest.path := HTTPRequest.path (request_line_fields rl);
       HTTPRequest.version := HTTPRequest.version (request_line_fields rl);
       HTTPRequest.headers :=
         headers_of_lines (ls ++ [k ++ COLON :: ws ++ v ++ cr]);
       HTTPRequest.body := [] |}) as (_ & _ & _ & ->).
  destruct (parse_body_fields (istringstream_ctor rest)
    {| HTTPRequest.method := HTTPRequest.method (request_line_fields rl);
       HTTPRequest.path := HTTPRequest.path (request_line_fields rl);
       HTTPRequest.version := HTTPRequest.version (request_line_fields rl);
       HTTPRequest.headers := headers_of_lines ls;
       HTTPRequest.body := [] |}) as (_ & _ & _ & ->).
  cbn [HTTPRequest.headers]. unfold headers_of_lines.
  rewrite foldl_app. cbn [foldl]. rewrite Hchomp.
  by apply store_header_split.
Qed.

Lemma X4_witness :
  HTTPRequest.headers
    (HTTPRequest.parse
       (header_block (lit "GET / HTTP/1.1")
          ([lit "Host: old"]
           ++ [lit "Host" ++ COLON :: [TAB; SP] ++ lit "a:80" ++ [CR]]) []
        ++ [])
       HTTPRequest.ctor).1
  !! lit "Host" = Some (lit "a:80").
Proof.
  rewrite (X4_header_line_cut_at_first_colon (lit "GET / HTTP/1.1") [] []
             (lit "Host") [TAB; SP] (lit "a:80") [CR] [lit "Host: old"]).
  - apply lookup_insert_eq.
  - by_evaluation.
  - unfold header_line_ok. repeat constructor; by_evaluation.
  - by left.
  - unfold header_name_ok. split; by_evaluation.
  - repeat constructor; by (left + right).
  - unfold header_value_ok. repeat split; by_evaluation.
  - by right.
Defined.

(** X5. Method, path, version and headers are decided by the header
    block alone: what follows the blank line has no influence on
    them. *)
Theorem X5_head_independent_of_what_follows
    (rl blank rest rest' : list ascii) (ls : list (list ascii))
    (Hrl : LF ∉ rl) (Hls : Forall header_line_ok ls)
    (Hblank : blank = [] ∨ blank = [CR]) :
  let a := (HTTPRequest.parse (header_block rl ls blank ++ rest)
                              HTTPRequest.ctor).1 in
  let b := (HTTPRequest.parse (header_block rl ls blank ++ rest')
                              HTTPRequest.ctor).1 in
  HTTPRequest.method a = HTTPRequest.method b
  ∧ HTTPRequest.path a = HTTPRequest.path b
  ∧ HTTPRequest.version a = HTTPRequest.version b
  ∧ HTTPRequest.headers a = HTTPRequest.headers b.
Proof.
  cbv zeta. rewrite !parse_header_block_eq by done.
  set (this := HTTPRequest.mk _ _ _ _ _).
  destruct (parse_body_fields (istringstream_ctor rest) this)
    as (-> & -> & -> & ->).
  by destruct (parse_body_fields (istringstream_ctor rest') this)
    as (-> & -> & -> & ->).
Qed.

Lemma X5_witness :
  HTTPRequest.headers
    (HTTPRequest.parse
       (header_block (lit "POST / HTTP/1.1") [lit "Content-Length: 2"] []
        ++ lit "ab")
       HTTPRequest.ctor).1
  = HTTPRequest.headers
      (HTTPRequest.parse
         (header_block (lit "POST / HTTP/1.1") [lit "Content-Length: 2"] []
          ++ lit "Host: x")
         HTTPRequest.ctor).1.
Proof.
  apply (X5_head_independent_of_what_follows (lit "POST / HTTP/1.1") []
           (lit "ab") (lit "Host: x") [lit "Content-Length: 2"]).
  - by_evaluation.
  - unfold header_line_ok. repeat constructor; by_evaluation.
  - by left.
Defined.

(** X6. When the input ends within the headers (no blank line; the last
    header line with or without its newline), the headers read so far
    are kept, [parse] returns, and a declared [Content-Length: N] gives
    a body of [N] zero characters: nothing is left to read. *)
Theorem X6_headers_up_to_end_of_input
    (rl last_line x : list ascii) (ls : list (list ascii)) (N : nat)
    (Hrl : LF ∉ rl) (Hls : Forall header_line_ok ls)
    (Hlast : last_line = [] ∨ header_line_ok last_line)
    (Hdecl : HTTPRequest.headers
               (HTTPRequest.parse
                  (rl ++ LF :: concat (map (fun l => l ++ [LF]) ls)
                   ++ last_line)
                  HTTPRequest.ctor).1
             !! lit "Content-Length" = Some x)
    (HN : stoi x = inr (Z.of_nat N)) :
  let result :=
    HTTPRequest.parse
      (rl ++ LF :: concat (map (fun l => l ++ [LF]) ls) ++ last_line)
      HTTPRequest.ctor in
  result.2 = Returned
  ∧ HTTPRequest.body result.1 = replicate N NUL
  ∧ HTTPRequest.headers result.1
    = headers_of_lines
        (ls ++ if decide (last_line = []) then [] else [last_line]).
Proof.
  cbv zeta. revert Hdecl. rewrite parse_steps. cbv zeta.
  rewrite (parse_request_line_first_line _ _ _ _ Hrl). cbn [fst snd].
  destruct (parse_request_line_frame (istringstream_ctor (rl ++ [LF])) []
              HTTPRequest.ctor) as [Hh Hbd].
  rewrite Hh, Hbd. cbn [HTTPRequest.headers HTTPRequest.body HTTPRequest.ctor].
  rewrite (parse_headers_eof _ _ _ _ Hls Hlast). cbn [fst snd].
  set (this := HTTPRequest.mk _ _ _ _ _).
  destruct (parse_body_fields stream_at_eof this) as (_ & _ & _ & Hhd).
  rewrite Hhd. intros Hdecl.
  by rewrite (parse_body_at_eof this x N Hdecl HN).
Qed.

Lemma X6_witness :
  let result :=
    HTTPRequest.parse
      (lit "POST / HTTP/1.1" ++ LF ::
       concat (map (fun l => l ++ [LF]) [lit "Host: h"])
       ++ lit "Content-Length: 4")
      HTTPRequest.ctor in
  result.2 = Returned
  ∧ HTTPRequest.body result.1 = [NUL; NUL; NUL; NUL]
  ∧ HTTPRequest.headers result.1
    = headers_of_lines [lit "Host: h"; lit "Content-Length: 4"].
Proof.
  apply (X6_headers_up_to_end_of_input (lit "POST / HTTP/1.1")
           (lit "Content-Length: 4") (lit "4") [lit "Host: h"] 4).
  - by_evaluation.
  - unfold header_line_ok. repeat constructor; by_evaluation.
  - right. unfold header_line_ok. repeat split; by_evaluation.
  - by vm_compute.
  - by vm_compute.
Defined.

(** X7. A negative [Content-Length] passes [std::stoi] and makes the
    construction of the body buffer throw: [parse] is left with the
    body untouched, and on a connection nothing is sent and the socket
    is not closed by the connection code. *)
Theorem X7_negative_content_length_throws `{UnorderedMapOrder}
    (rs : gmap (list ascii) WebServer.handler) (c : WebServer.accepted)
    (x : list ascii) (n : Z)
    (Hrecv : 0 < (WebServer.receive c).1)
    (Hcl : HTTPRequest.headers
             (HTTPRequest.parse (WebServer.request_str_of c)
                                HTTPRequest.ctor).1
           !! lit "Content-Length" = Some x)
    (Hn : stoi x = inr n) (Hneg : n < 0) :
  (HTTPRequest.parse (WebServer.request_str_of c) HTTPRequest.ctor).2
  = Thrown length_error
  ∧ HTTPRequest.body
      (HTTPRequest.parse (WebServer.request_str_of c) HTTPRequest.ctor).1
    = []
  ∧ WebServer.serve rs c
    = ([WebServer.EvRecv (WebServer.client_socket c) 8191],
       Thrown length_error).
Proof.
  assert (HTTPRequest.parse (WebServer.request_str_of c) HTTPRequest.ctor
          = ((HTTPRequest.parse (WebServer.request_str_of c)
                                HTTPRequest.ctor).1, Thrown length_error)
          ∧ HTTPRequest.body
              (HTTPRequest.parse (WebServer.request_str_of c)
                                 HTTPRequest.ctor).1 = []) as [Hp Hb].
  { revert Hcl. rewrite parse_steps. cbv zeta.
    set (rl := HTTPRequest.parse_request_line _ _ _).
    set (hl := HTTPRequest.parse_headers _ _ _).
    set (this := HTTPRequest.mk _ _ _ _ _).
    destruct (parse_body_fields hl.1 this) as (_ & _ & _ & ->).
    intros Hcl. rewrite (parse_body_negative _ _ _ _ Hcl Hn Hneg).
    split; [done|]. simpl. subst rl.
    apply (parse_request_line_frame
             (istringstream_ctor (WebServer.request_str_of c)) []
             HTTPRequest.ctor). }
  split; [by rewrite Hp|]. split; [done|].
  apply serve_thrown; [done|]. by rewrite Hp.
Qed.

Lemma X7_witness :
  WebServer.serve (WebServer.routes (main_routes (WebServer.ctor 8080 0)))
    (sample_connection 4
       (Some (lit "POST / HTTP/1.1" ++ [CR; LF]
              ++ lit "Content-Length: -1" ++ [CR; LF; CR; LF])))
  = ([WebServer.EvRecv 4 8191], Thrown length_error).
Proof.
  refine (proj2 (proj2 (X7_negative_content_length_throws _
    (sample_connection 4
       (Some (lit "POST / HTTP/1.1" ++ [CR; LF]
              ++ lit "Content-Length: -1" ++ [CR; LF; CR; LF])))
    (lit "-1") (-1) _ _ _ _))).
  - by vm_compute.
  - by vm_compute.
  - by vm_compute.
  - lia.
Defined.

(** X8. A well-formed request none of whose header names is exactly
    [Content-Length] (names differing in case do not count) is parsed
    without error into the method, path, version and header mapping it
    was written from, with an empty body, whatever follows the blank
    line. *)
Theorem X8_request_without_content_length
    (crlf : bool) (m ws1 p ws2 v rest : list ascii)
    (hs : list (list ascii * list ascii))
    (Hm : word m) (Hws1 : blank_run ws1) (Hp : word p)
    (Hws2 : blank_run ws2) (Hv : word v)
    (Hhs : Forall (fun kv => header_name_ok kv.1 ∧ header_value_ok kv.2) hs)
    (Hno : lit "Content-Length" ∉ hs.*1) :
  HTTPRequest.parse (request_text crlf m ws1 p ws2 v hs ++ rest)
                    HTTPRequest.ctor
  = ({| HTTPRequest.method := m; HTTPRequest.path := p;
        HTTPRequest.version := v; HTTPRequest.headers := header_map hs;
        HTTPRequest.body := [] |}, Returned).
Proof.
  rewrite parse_request_text by done.
  apply parse_body_absent. simpl. by apply header_map_absent.
Qed.

Lemma X8_witness :
  HTTPRequest.parse
    (request_text false (lit "POST") [SP] (lit "/a") [SP] (lit "HTTP/1.1")
       [(lit "content-length", lit "3")] ++ lit "abc")
    HTTPRequest.ctor
  = ({| HTTPRequest.method := lit "POST"; HTTPRequest.path := lit "/a";
        HTTPRequest.version := lit "HTTP/1.1";
        HTTPRequest.headers := header_map [(lit "content-length", lit "3")];
        HTTPRequest.body := [] |}, Returned).
Proof.
  apply X8_request_without_content_length.
  - split; [done|repeat constructor].
  - split; [done|repeat constructor; done].
  - split; [done|repeat constructor].
  - split; [done|repeat constructor; done].
  - split; [done|repeat constructor].
  - unfold header_name_ok, header_value_ok. repeat constructor; by_evaluation.
  - by_evaluation.
Defined.

(** * Decimal numbers, written and read back *)

Section stoi_facts.

Implicit Types (ds s : list ascii).

Lemma isdigit_not_space c : isdigit c = true → isspace c = false.
Proof.
  unfold isdigit, isspace. intros Hd.
  apply andb_true_iff in Hd as [H1 H2].
  apply Nat.leb_le in H1. apply Nat.leb_le in H2.
  apply orb_false_iff. split.
  - apply andb_false_iff. right. apply Nat.leb_gt. lia.
  - apply Nat.eqb_neq. lia.
Qed.

Lemma isdigit_not_sign c :
  isdigit c = true → Ascii.eqb c "-" = false ∧ Ascii.eqb c "+" = false.
Proof.
  intros Hd. split; apply Ascii.eqb_neq; intros ->; by vm_compute in Hd.
Qed.

Lemma span_digits_all ds :
  Forall (fun c => isdigit c = true) ds → span_digits ds = (ds, []).
Proof.
  induction 1 as [|c ds Hc _ IH]; simpl; [done|]. by rewrite Hc, IH.
Qed.

(** [std::stoi] on a plain run of digits, and on one behind a minus
    sign. *)
Lemma stoi_digits ds v :
  ds ≠ [] → Forall (fun c => isdigit c = true) ds →
  decimal_value ds = v → 0 <= v <= INT_MAX →
  stoi ds = inr v.
Proof.
  intros Hne Hds Hv Hrange. unfold stoi.
  destruct ds as [|c ds]; [done|].
  pose proof (Forall_inv Hds) as Hc. simpl in Hc.
  cbn [skipws]. rewrite (isdigit_not_space _ Hc).
  destruct (isdigit_not_sign _ Hc) as [-> ->].
  rewrite (span_digits_all _ Hds). cbn [fst]. rewrite Hv.
  destruct (Z.leb_spec INT_MIN v) as [_|Hlt];
    [|unfold INT_MIN in Hlt; lia].
  destruct (Z.leb_spec v INT_MAX) as [_|Hgt]; [done|lia].
Qed.

Lemma stoi_minus_digits ds v :
  ds ≠ [] → Forall (fun c => isdigit c = true) ds →
  decimal_value ds = v → 0 <= v <= - INT_MIN →
  stoi ("-"%char :: ds) = inr (- v).
Proof.
  intros Hne Hds Hv Hrange. unfold stoi.
  change (skipws ("-"%char :: ds)) with ("-"%char :: ds).
  cbv beta iota. change (Ascii.eqb "-" "-") with true. cbv beta iota.
  rewrite (span_digits_all _ Hds). cbn [fst].
  destruct ds as [|c ds]; [done|]. rewrite Hv.
  destruct (Z.leb_spec INT_MIN (- v)) as [_|Hlt]; [|lia].
  destruct (Z.leb_spec (- v) INT_MAX) as [_|Hgt];
    [done|unfold INT_MAX, INT_MIN in *; lia].
Qed.

Lemma to_string_negative n : n < 0 → to_string n = "-"%char :: to_string (- n).
Proof.
  intros Hn. unfold to_string.
  destruct (Z.ltb_spec n 0) as [_|?]; [|lia].
  destruct (Z.ltb_spec (- n) 0) as [?|_]; [lia|].
  by rewrite Z.abs_opp.
Qed.

(** What [std::to_string] writes, [std::stoi] reads back. *)
Lemma stoi_to_string n :
  INT_MIN <= n <= INT_MAX → stoi (to_string n) = inr n.
Proof.
  intros [Hlo Hhi]. destruct (Z.lt_ge_cases n 0) as [Hneg|Hpos].
  - rewrite (to_string_negative _ Hneg).
    destruct (to_string_decimal (- n) ltac:(lia)) as (Hd & Hv & Hne).
    rewrite (stoi_minus_digits _ (- n) Hne Hd Hv) by lia.
    by rewrite Z.opp_involutive.
  - destruct (to_string_decimal n Hpos) as (Hd & Hv & Hne).
    by apply stoi_digits.
Qed.

Lemma isdigit_no_LF ds : Forall (fun c => isdigit c = true) ds → LF ∉ ds.
Proof.
  intros Hds Hin. rewrite Forall_forall in Hds. by specialize (Hds _ Hin).
Qed.

Lemma to_string_no_LF n : LF ∉ to_string n.
Proof.
  destruct (Z.lt_ge_cases n 0) as [Hneg|Hpos].
  - rewrite (to_string_negative _ Hneg). apply not_elem_of_cons. split; [done|].
    destruct (to_string_decimal (- n) ltac:(lia)) as (Hd & _ & _).
    by apply isdigit_no_LF.
  - destruct (to_string_decimal n Hpos) as (Hd & _ & _).
    by apply isdigit_no_LF.
Qed.

End stoi_facts.

(** * A response, parsed back *)

Section round_trip_facts.

Context `{UnorderedMapOrder}.

Implicit Types (l : list (list ascii * list ascii)).
Implicit Types (m : gmap (list ascii) (list ascii)).

Lemma header_map_NoDup l k v :
  NoDup l.*1 → (k, v) ∈ l → header_map l !! k = Some v.
Proof.
  intros Hnd Hin. apply list_elem_of_split in Hin as (l1 & l2 & ->).
  rewrite fmap_app, fmap_cons in Hnd. simpl in Hnd.
  apply NoDup_app in Hnd as (_ & _ & Hnd).
  apply NoDup_cons in Hnd as [Hk _].
  by apply header_map_last.
Qed.

(** Storing the entries of a map one by one, in whatever order they are
    visited, gives the map back. *)
Lemma header_map_iteration_order m : header_map (iteration_order m) = m.
Proof.
  apply map_eq. intros k. destruct (m !! k) as [v|] eqn:E.
  - apply header_map_NoDup; [apply iteration_order_NoDup|].
    by apply iteration_order_elem.
  - apply header_map_absent. intros Hin.
    apply list_elem_of_fmap in Hin as ([k' v] & -> & Hin).
    apply iteration_order_elem in Hin. simpl in *. congruence.
Qed.

(** The serialisation of a response has the shape of a header block
    followed by the body. *)
Lemma toString_as_block r :
  HTTPResponse.toString r
  = header_block
      (HTTPResponse.version r ++ [SP]
       ++ to_string (HTTPResponse.status_code r) ++ [SP]
       ++ HTTPResponse.status_message r ++ [CR])
      (lines_of true (iteration_order (HTTPResponse.headers r))) [CR]
    ++ HTTPResponse.body r.
Proof.
  rewrite toString_layout. unfold header_block, status_line.
  change (map header_row ?l) with (map (header_text true) l).
  rewrite concat_header_text. unfold HTTPResponse.CRLF.
  app_norm. reflexivity.
Qed.

End round_trip_facts.

(** X9. What [std::to_string] writes for an [int], [std::stoi] reads
    back; in particular the [Content-Length] that [setContent] stores is
    read by the conversion of line 62 as the length of the content, as
    long as that length fits an [int]. *)
Theorem X9_content_length_read_back (c t : list ascii) (r : HTTPResponse.t)
    (Hlen : Z.of_nat (length c) <= INT_MAX) :
  (∃ x,
     HTTPResponse.headers (HTTPResponse.setContent c t r)
       !! lit "Content-Length" = Some x
     ∧ stoi x = inr (Z.of_nat (length c)))
  ∧ (∀ n, INT_MIN <= n <= INT_MAX → stoi (to_string n) = inr n).
Proof.
  split; [|apply stoi_to_string].
  exists (to_string (Z.of_nat (length c))). split.
  - unfold HTTPResponse.setContent. cbn. apply lookup_insert_eq.
  - apply stoi_to_string. unfold INT_MIN. lia.
Qed.

Lemma X9_witness :
  ∃ x,
    HTTPResponse.headers
      (HTTPResponse.setContent (lit "hello") (lit "text/plain")
                               HTTPResponse.ctor)
      !! lit "Content-Length" = Some x
    ∧ stoi x = inr 5.
Proof.
  refine (proj1 (X9_content_length_read_back (lit "hello") (lit "text/plain")
                   HTTPResponse.ctor _)).
  by vm_compute.
Defined.

(** X10. A serialised response read by [parse] gives back the header
    mapping and the body of the response, in whatever order the headers
    were written: provided version and status message hold no newline,
    every header is a well-formed name and value, and [Content-Length]
    states the length of the body (as after [setContent]), which fits
    an [int]. *)
Theorem X10_parse_reads_back_toString `{UnorderedMapOrder}
    (r : HTTPResponse.t)
    (Hver : LF ∉ HTTPResponse.version r)
    (Hmsg : LF ∉ HTTPResponse.status_message r)
    (Hhs : map_Forall (fun k v => header_name_ok k ∧ header_value_ok v)
                      (HTTPResponse.headers r))
    (Hcl : content_length_consistent r)
    (Hlen : Z.of_nat (length (HTTPResponse.body r)) <= INT_MAX) :
  let result :=
    HTTPRequest.parse (HTTPResponse.toString r) HTTPRequest.ctor in
  result.2 = Returned
  ∧ HTTPRequest.headers result.1 = HTTPResponse.headers r
  ∧ HTTPRequest.body result.1 = HTTPResponse.body r.
Proof.
  cbv zeta. rewrite toString_as_block.
  assert (Forall (fun kv => header_name_ok kv.1 ∧ header_value_ok kv.2)
            (iteration_order (HTTPResponse.headers r))) as Hall.
  { apply Forall_forall. intros [k v] Hin.
    apply iteration_order_elem in Hin. by apply (Hhs k v). }
  rewrite parse_header_block_eq.
  - set (this := HTTPRequest.mk _ _ _ _ _).
    assert (HTTPRequest.headers this = HTTPResponse.headers r) as Hh.
    { unfold this. cbn [HTTPRequest.headers]. unfold headers_of_lines.
      rewrite (foldl_store_lines true _ ∅ Hall).
      apply header_map_iteration_order. }
    assert (HTTPRequest.headers this !! lit "Content-Length"
            = Some (to_string (Z.of_nat (length (HTTPResponse.body r)))))
      as Hx by (by rewrite Hh).
    rewrite (parse_body_present _ this _ (length (HTTPResponse.body r)) Hx).
    + cbn [fst snd HTTPRequest.headers HTTPRequest.body].
      rewrite Nat.sub_diag, take_ge by done. cbn [replicate].
      by rewrite app_nil_r.
    + apply stoi_to_string. unfold INT_MIN. lia.
  - rewrite !not_elem_of_app.
    repeat split;
      first [ done | apply to_string_no_LF
            | apply not_elem_of_cons; split; [done|apply not_elem_of_nil] ].
  - by apply lines_of_ok.
  - by right.
Qed.

Lemma X10_witness :
  let r := HTTPResponse.setContent (lit "{}") (lit "application/json")
             HTTPResponse.ctor in
  let result :=
    HTTPRequest.parse (HTTPResponse.toString r) HTTPRequest.ctor in
  result.2 = Returned
  ∧ HTTPRequest.headers result.1 = HTTPResponse.headers r
  ∧ HTTPRequest.body result.1 = lit "{}".
Proof.
  intros r.
  apply (X10_parse_reads_back_toString r).
  - by_evaluation.
  - by_evaluation.
  - unfold r, HTTPResponse.setContent. cbn.
    apply map_Forall_insert_2; [|apply map_Forall_insert_2;
                                   [|apply map_Forall_empty]];
      unfold header_name_ok, header_value_ok; repeat split; by_evaluation.
  - reflexivity.
  - by vm_compute.
Defined.

(** Two keys stored a second time: the first values are gone. *)
Lemma insert_pair_again (a b x1 y1 x2 y2 : list ascii)
    (m : gmap (list ascii) (list ascii)) :
  a ≠ b →
  <[b := y2]> (<[a := x2]> (<[b := y1]> (<[a := x1]> m)))
  = <[b := y2]> (<[a := x2]> m).
Proof.
  intros Hab. apply map_eq. intros k. rewrite !lookup_insert.
  destruct (decide (b = k)); [done|]. by destruct (decide (a = k)).
Qed.

(** X11. Of two calls of [setContent] on a response the second decides
    alone: body, [Content-Type] and [Content-Length] are those of the
    second call and nothing of the first is left. *)
Theorem X11_setContent_last_call_wins (c1 t1 c2 t2 : list ascii)
    (r : HTTPResponse.t) :
  HTTPResponse.setContent c2 t2 (HTTPResponse.setContent c1 t1 r)
  = HTTPResponse.setContent c2 t2 r.
Proof.
  unfold HTTPResponse.setContent, HTTPResponse.set_header,
    HTTPResponse.set_body. cbn. f_equal.
  exact (insert_pair_again (lit "Content-Type") (lit "Content-Length")
           t1 _ t2 _ (HTTPResponse.headers r) ltac:(done)).
Qed.

(** * Responses built by the server *)

Section built_in_responses.

Import WebServer.

Lemma setContent_consistent c t r :
  content_length_consistent (HTTPResponse.setContent c t r).
Proof.
  unfold content_length_consistent, HTTPResponse.setContent. cbn.
  apply lookup_insert_eq.
Qed.

Lemma respond_not_found_consistent res :
  content_length_consistent (respond_not_found res).
Proof. apply setContent_consistent. Qed.

Lemma static_file_handler_sets_length file_path :
  handler_sets_length (static_file_handler file_path).
Proof.
  intros fs req res. unfold static_file_handler.
  destruct (fs file_path);
    [apply setContent_consistent|apply respond_not_found_consistent].
Qed.

End built_in_responses.

(** X12. When every registered handler leaves its response with a
    [Content-Length] that states the length of the body (as the static
    file handler and every handler that ends with [setContent] do), so
    does every response the server produces, found or not found, and the
    serialised response carries that header row and ends with the blank
    line and the body. *)
Theorem X12_responses_state_their_length `{UnorderedMapOrder}
    (rs : gmap (list ascii) WebServer.handler) (fs : WebServer.filesystem)
    (req : HTTPRequest.t)
    (Hrs : map_Forall (fun _ h => handler_sets_length h) rs) :
  (let r := (WebServer.dispatch rs fs req HTTPResponse.ctor).1 in
   content_length_consistent r
   ∧ contains
       (lit "Content-Length: "
        ++ to_string (Z.of_nat (length (HTTPResponse.body r)))
        ++ HTTPResponse.CRLF)
       (HTTPResponse.toString r)
   ∧ ∃ pre, HTTPResponse.toString r
            = pre ++ HTTPResponse.CRLF ++ HTTPResponse.CRLF
              ++ HTTPResponse.body r)
  ∧ (∀ file_path,
       handler_sets_length (WebServer.static_file_handler file_path))
  ∧ (∀ c t r, content_length_consistent (HTTPResponse.setContent c t r)).
Proof.
  split; [|split; [apply static_file_handler_sets_length
                  |apply setContent_consistent]].
  cbv zeta.
  assert (content_length_consistent
            (WebServer.dispatch rs fs req HTTPResponse.ctor).1) as Hc.
  { unfold WebServer.dispatch.
    destruct (rs !! HTTPRequest.path req) as [h|] eqn:E; simpl.
    - by apply (Hrs _ _ E).
    - apply respond_not_found_consistent. }
  split; [done|]. split.
  - apply (toString_contains_header _ _ _ Hc).
  - apply toString_ends_with_body.
Qed.

Lemma X12_witness :
  content_length_consistent
    (WebServer.dispatch
       (WebServer.routes (main_routes (WebServer.ctor 8080 0)))
       (fun _ => Some (lit "<p>hi</p>"))
       (HTTPRequest.parse (lit "GET /index.html HTTP/1.1" ++ [CR; LF; CR; LF])
                          HTTPRequest.ctor).1
       HTTPResponse.ctor).1.
Proof.
  refine (proj1 (proj1 (X12_responses_state_their_length _ _ _ _))).
  unfold main_routes, WebServer.addStaticFileRoute, WebServer.addRoute.
  cbn [WebServer.routes WebServer.ctor].
  repeat apply map_Forall_insert_2; try apply map_Forall_empty.
  - apply static_file_handler_sets_length.
  - intros fs req res. apply setContent_consistent.
  - intros fs req res. apply setContent_consistent.
Defined.

(** X13. A static file route whose file cannot be opened answers
    exactly as an unregistered path does: the same response, hence the
    same characters on the connection: status 404, [Content-Type:
    text/html], [Content-Length: 48] and the fixed page. *)
Theorem X13_missing_file_answers_as_unknown_path `{UnorderedMapOrder}
    (rs : gmap (list ascii) WebServer.handler) (fs : WebServer.filesystem)
    (req : HTTPRequest.t) (file_path : list ascii)
    (Hroute : rs !! HTTPRequest.path req
              = Some (WebServer.static_file_handler file_path))
    (Hmissing : fs file_path = None) :
  let r := (WebServer.dispatch rs fs req HTTPResponse.ctor).1 in
  r = (WebServer.dispatch ∅ fs req HTTPResponse.ctor).1
  ∧ HTTPResponse.toString r
    = HTTPResponse.toString
        (WebServer.dispatch ∅ fs req HTTPResponse.ctor).1
  ∧ HTTPResponse.status_code r = 404
  ∧ HTTPResponse.headers r
    = <[lit "Content-Length" := lit "48"]>
        (<[lit "Content-Type" := lit "text/html"]> ∅)
  ∧ Z.of_nat (length (HTTPResponse.body r)) = 48.
Proof.
  cbv zeta. unfold WebServer.dispatch. rewrite Hroute, lookup_empty.
  cbn [fst]. unfold WebServer.static_file_handler. rewrite Hmissing.
  repeat split.
Qed.

Lemma X13_witness :
  HTTPResponse.status_code
    (WebServer.dispatch
       (WebServer.routes (main_routes (WebServer.ctor 8080 0)))
       (fun _ => None)
       (HTTPRequest.parse (lit "GET /index.html HTTP/1.1" ++ [CR; LF; CR; LF])
                          HTTPRequest.ctor).1
       HTTPResponse.ctor).1
  = 404.
Proof.
  refine (proj1 (proj2 (proj2 (X13_missing_file_answers_as_unknown_path
            _ (fun _ => None) _ (lit "public/index.html") _ _)))).
  - assert (HTTPRequest.path
              (HTTPRequest.parse
                 (lit "GET /index.html HTTP/1.1" ++ [CR; LF; CR; LF])
                 HTTPRequest.ctor).1 = lit "/index.html") as ->
      by (by vm_compute).
    unfold main_routes, WebServer.addStaticFileRoute, WebServer.addRoute.
    cbn [WebServer.routes WebServer.ctor]. apply lookup_insert_eq.
  - reflexivity.
Defined.

(** * Further properties of the server *)

Section more_server_facts.

Import WebServer.

Context `{UnorderedMapOrder}.

Implicit Types (rs : gmap (list ascii) handler).
Implicit Types (evs : list event).

(** The three shapes of what one connection produces. *)
Lemma serve_shapes rs c :
  (∃ e, serve rs c = ([EvRecv (client_socket c) 8191], Thrown e))
  ∨ serve rs c
    = ([EvRecv (client_socket c) 8191; EvClose (client_socket c)], Returned)
  ∨ (∃ pre d,
       serve rs c
       = (EvRecv (client_socket c) 8191 :: pre
          ++ [EvSend (client_socket c) d; EvClose (client_socket c)],
          Returned)
       ∧ (pre = [] ∨ ∃ p, pre = [EvHandler p])).
Proof.
  rewrite serve_unfold. destruct (0 <? (receive c).1); [|by right; left].
  destruct (HTTPRequest.parse _ _) as [request [|e]]; [|left; by exists e].
  right; right. unfold dispatch.
  destruct (rs !! HTTPRequest.path request) as [h|].
  - eexists [_], _. split; [reflexivity|]. right. by eexists.
  - eexists [], _. split; [reflexivity|]. by left.
Qed.

Lemma serve_no_accept_failed rs c :
  Forall (fun e => is_accept_failed e = false) (serve rs c).1.
Proof.
  destruct (serve_shapes rs c) as [[e ->] | [-> | (pre & d & -> & Hpre)]];
    simpl.
  - by repeat constructor.
  - by repeat constructor.
  - constructor; [done|]. apply Forall_app. split; [|by repeat constructor].
    destruct Hpre as [-> | [p ->]]; by repeat constructor.
Qed.

Lemma send_then_close_app evs1 evs2 :
  send_then_close evs1 → send_then_close evs2 →
  send_then_close (evs1 ++ evs2).
Proof.
  intros H1 H2. induction evs1 as [|e evs1 IH]; [done|].
  destruct e; simpl in *; try (by apply IH).
  destruct H1 as [Hnext Hrest]. split; [|by apply IH].
  destruct evs1 as [|e' evs1]; [done|]. by destruct e'.
Qed.

Lemma serve_send_then_close rs c : send_then_close (serve rs c).1.
Proof.
  destruct (serve_shapes rs c) as [[e ->] | [-> | (pre & d & -> & Hpre)]];
    simpl; [done|done|].
  destruct Hpre as [-> | [p ->]]; simpl; done.
Qed.

Lemma accept_loop_send_then_close rs script :
  send_then_close (accept_loop rs script).1.
Proof.
  induction script as [|c script IH]; simpl; [done|].
  destruct (client_socket c =? INVALID_SOCKET).
  - by destruct (accept_loop rs script) as [evs st].
  - pose proof (serve_send_then_close rs c) as Hs.
    destruct (serve rs c) as [evs1 [|e]]; simpl in *.
    + destruct (accept_loop rs script) as [evs st]. simpl in *.
      by apply send_then_close_app.
    + done.
Qed.

(** The explicit reading of [send_then_close]. *)
Lemma send_then_close_split evs pre s d post :
  send_then_close evs → evs = pre ++ EvSend s d :: post →
  ∃ post', post = EvClose s :: post'.
Proof.
  intros Hevs ->. induction pre as [|e pre IH].
  - simpl in Hevs. destruct Hevs as [Hnext _].
    destruct post as [|e post]; [done|]. destruct e; try done.
    subst. by eexists.
  - apply IH. destruct e; simpl in Hevs; try done. by destruct Hevs.
Qed.

Lemma close_server_socket_closed this :
  server_socket (close_server_socket this).1 = INVALID_SOCKET.
Proof.
  unfold close_server_socket.
  by destruct (Z.eqb_spec (server_socket this) INVALID_SOCKET).
Qed.

Lemma close_server_socket_events this :
  send_then_close (close_server_socket this).2.
Proof.
  unfold close_server_socket.
  by destruct (server_socket this =? INVALID_SOCKET).
Qed.

(** A connection on which [parse] returns is served to the end, and its
    socket is closed. *)
Lemma serve_returned rs c :
  (0 < (receive c).1 →
   (HTTPRequest.parse (request_str_of c) HTTPRequest.ctor).2 = Returned) →
  (serve rs c).2 = Returned ∧ EvClose (client_socket c) ∈ (serve rs c).1.
Proof.
  intros Hp. rewrite serve_unfold.
  destruct (Z.ltb_spec 0 (receive c).1) as [Hpos|_].
  - specialize (Hp Hpos).
    destruct (HTTPRequest.parse _ _) as [request [|e]]; [|done].
    destruct (dispatch rs (files c) request HTTPResponse.ctor)
      as [response evs].
    simpl. split; [done|].
    apply elem_of_cons. right. apply elem_of_app. right.
    apply elem_of_cons. right. apply list_elem_of_here.
  - simpl. split; [done|]. apply elem_of_cons. right. apply list_elem_of_here.
Qed.

End more_server_facts.

(** X14. Registering a route stores the handler under the exact path:
    a second registration for the same path replaces the first (also a
    static file route replacing a handler), registrations for distinct
    paths do not depend on their order, and neither the listening
    socket, the port nor the running flag is touched. *)
Theorem X14_addRoute_last_registration_wins
    (srv : WebServer.t) (p q file_path : list ascii)
    (h1 h2 : WebServer.handler) :
  WebServer.addRoute p h2 (WebServer.addRoute p h1 srv)
  = WebServer.addRoute p h2 srv
  ∧ WebServer.routes
      (WebServer.addStaticFileRoute p file_path (WebServer.addRoute p h1 srv))
    !! p = Some (WebServer.static_file_handler file_path)
  ∧ (p ≠ q →
     WebServer.addRoute p h1 (WebServer.addRoute q h2 srv)
     = WebServer.addRoute q h2 (WebServer.addRoute p h1 srv))
  ∧ WebServer.server_socket (WebServer.addRoute p h1 srv)
    = WebServer.server_socket srv
  ∧ WebServer.port (WebServer.addRoute p h1 srv) = WebServer.port srv
  ∧ WebServer.running (WebServer.addRoute p h1 srv) = WebServer.running srv.
Proof.
  unfold WebServer.addStaticFileRoute, WebServer.addRoute. cbn.
  split; [by rewrite insert_insert_eq|].
  split; [apply lookup_insert_eq|].
  split; [|done]. intros Hpq. by rewrite insert_insert_ne.
Qed.

(** X15. When a step of [initializeSocket] fails, [start] reports the
    exception with the message of that step, accepts no connection, and
    returns with the running flag as it was; the listening socket is
    closed if it had been created, and the member is left invalid. *)
Theorem X15_failed_setup_ends_start `{UnorderedMapOrder}
    (os : WebServer.socket_setup) (script : list WebServer.accepted)
    (this : WebServer.t)
    (Hfail : ¬ setup_ok os) :
  ∃ what,
    what ∈ setup_errors
    ∧ WebServer.start os script this
      = (WebServer.EvServerError (runtime_error what)
         :: (if WebServer.socket_result os =? WebServer.INVALID_SOCKET
             then []
             else [WebServer.EvClose (WebServer.socket_result os)]),
         Some (WebServer.set_server_socket WebServer.INVALID_SOCKET this))
    ∧ (WebServer.socket_result os = WebServer.INVALID_SOCKET →
       what = lit "Could not create socket").
Proof.
  unfold setup_ok in Hfail.
  unfold WebServer.start, WebServer.initializeSocket,
    WebServer.close_server_socket, setup_errors.
  cbn [WebServer.server_socket WebServer.set_server_socket].
  destruct (Z.eqb_spec (WebServer.socket_result os) WebServer.INVALID_SOCKET)
    as [E1|N1].
  { eexists. split; [apply list_elem_of_here|]. cbn. rewrite E1. cbn.
    split; [reflexivity|done]. }
  destruct (Z.eqb_spec (WebServer.setsockopt_result os) WebServer.SOCKET_ERROR)
    as [E2|N2].
  { eexists. split; [apply list_elem_of_further, list_elem_of_here|]. cbn.
    destruct (Z.eqb_spec (WebServer.socket_result os)
                WebServer.INVALID_SOCKET); [done|].
    split; [reflexivity|done]. }
  destruct (Z.eqb_spec (WebServer.bind_result os) WebServer.SOCKET_ERROR)
    as [E3|N3].
  { eexists. split;
      [apply list_elem_of_further, list_elem_of_further, list_elem_of_here|].
    cbn.
    destruct (Z.eqb_spec (WebServer.socket_result os)
                WebServer.INVALID_SOCKET); [done|].
    split; [reflexivity|done]. }
  destruct (Z.eqb_spec (WebServer.listen_result os) WebServer.SOCKET_ERROR)
    as [E4|N4].
  { eexists. split;
      [apply list_elem_of_further, list_elem_of_further,
         list_elem_of_further, list_elem_of_here|].
    cbn.
    destruct (Z.eqb_spec (WebServer.socket_result os)
                WebServer.INVALID_SOCKET); [done|].
    split; [reflexivity|done]. }
  by destruct Hfail.
Qed.

Lemma X15_witness :
  ∃ what,
    what ∈ setup_errors
    ∧ WebServer.start
        {| WebServer.socket_result := 3; WebServer.setsockopt_result := 0;
           WebServer.bind_result := -1; WebServer.listen_result := 0 |}
        [sample_connection 4 (Some request_root)]
        (main_routes (WebServer.ctor 8080 0))
      = ([WebServer.EvServerError (runtime_error what); WebServer.EvClose 3],
         Some (WebServer.set_server_socket WebServer.INVALID_SOCKET
                 (main_routes (WebServer.ctor 8080 0)))).
Proof.
  destruct (X15_failed_setup_ends_start
    {| WebServer.socket_result := 3; WebServer.setsockopt_result := 0;
       WebServer.bind_result := -1; WebServer.listen_result := 0 |}
    [sample_connection 4 (Some request_root)]
    (main_routes (WebServer.ctor 8080 0))) as (what & Hin & Hstart & _).
  - intros (_ & _ & Hbind & _). by apply Hbind.
  - exists what. split; [exact Hin|exact Hstart].
Defined.

(** X16. [stop] clears the running flag and closes the listening socket
    at most once: after [stop] the socket member is invalid, a second
    [stop] closes nothing and changes nothing, and after [start] has
    returned a [stop] (as the destructor does) closes nothing. *)
Theorem X16_stop_closes_at_most_once `{UnorderedMapOrder}
    (this : WebServer.t) :
  WebServer.server_socket (WebServer.stop this).1 = WebServer.INVALID_SOCKET
  ∧ WebServer.running (WebServer.stop this).1 = false
  ∧ WebServer.stop (WebServer.stop this).1 = ((WebServer.stop this).1, [])
  ∧ (WebServer.stop this).2
    = (if WebServer.server_socket this =? WebServer.INVALID_SOCKET then []
       else [WebServer.EvClose (WebServer.server_socket this)])
  ∧ (∀ os script evs this',
        WebServer.start os script this = (evs, Some this') →
        (WebServer.stop this').2 = []).
Proof.
  assert (∀ t, WebServer.server_socket t = WebServer.INVALID_SOCKET →
               WebServer.stop t = (WebServer.set_running false t, [])) as Hinv.
  { intros t Ht. unfold WebServer.stop, WebServer.close_server_socket.
    cbn [WebServer.server_socket WebServer.set_running]. by rewrite Ht. }
  assert (WebServer.server_socket (WebServer.stop this).1
          = WebServer.INVALID_SOCKET) as Hs
    by apply close_server_socket_closed.
  assert (WebServer.running (WebServer.stop this).1 = false) as Hr.
  { unfold WebServer.stop, WebServer.close_server_socket.
    cbn [WebServer.server_socket WebServer.set_running].
    by destruct (WebServer.server_socket this =? WebServer.INVALID_SOCKET). }
  split; [done|]. split; [done|]. split; [|split].
  - rewrite (Hinv _ Hs). f_equal.
    destruct (WebServer.stop this).1 as [s p r rs]. simpl in *. by subst.
  - unfold WebServer.stop, WebServer.close_server_socket.
    cbn [WebServer.server_socket WebServer.set_running].
    by destruct (WebServer.server_socket this =? WebServer.INVALID_SOCKET).
  - intros os script evs this' Hstart.
    rewrite Hinv; [done|].
    unfold WebServer.start in Hstart.
    destruct (WebServer.initializeSocket os this) as [[this1 evs0] [|e]].
    + destruct (WebServer.accept_loop _ script) as [evs1 [|e]]; [done|].
      pose proof (close_server_socket_closed
                    (WebServer.set_running true this1)) as Hc.
      destruct (WebServer.close_server_socket _) as [this2 evs2].
      simpl in Hc. by simplify_eq.
    + pose proof (close_server_socket_closed this1) as Hc.
      destruct (WebServer.close_server_socket this1) as [this2 evs2].
      simpl in Hc. by simplify_eq.
Qed.

Lemma filter_Forall_id {A} (P : A → Prop) `{!∀ x, Decision (P x)}
    (l : list A) :
  Forall P l → filter P l = l.
Proof.
  induction 1 as [|x l Hx _ IH]; [done|].
  by rewrite filter_cons_True, IH.
Qed.

(** X17. A failed [accept] is reported and has no other effect: without
    the failed returns of [accept] the loop produces the same events,
    less the reports, and ends in the same state. *)
Theorem X17_failed_accept_only_reported `{UnorderedMapOrder}
    (rs : gmap (list ascii) WebServer.handler)
    (script : list WebServer.accepted) :
  WebServer.accept_loop rs (filter accepted_ok script)
  = (filter (fun e => is_accept_failed e = false)
            (WebServer.accept_loop rs script).1,
     (WebServer.accept_loop rs script).2).
Proof.
  induction script as [|c script IH]; [done|].
  cbn [WebServer.accept_loop].
  destruct (Z.eqb_spec (WebServer.client_socket c) WebServer.INVALID_SOCKET)
    as [E|N].
  - rewrite filter_cons_False by (unfold accepted_ok; by intros ?).
    rewrite IH. destruct (WebServer.accept_loop rs script) as [evs st].
    cbn [fst snd]. by rewrite filter_cons_False.
  - rewrite filter_cons_True by done. cbn [WebServer.accept_loop].
    destruct (Z.eqb_spec (WebServer.client_socket c)
                WebServer.INVALID_SOCKET); [done|].
    pose proof (serve_no_accept_failed rs c) as Hs.
    destruct (WebServer.serve rs c) as [evs1 [|e]]; cbn [fst snd] in *.
    + rewrite IH. destruct (WebServer.accept_loop rs script) as [evs st].
      cbn [fst snd]. rewrite filter_cons_True by done.
      rewrite filter_app. f_equal. f_equal. f_equal.
      by rewrite filter_Forall_id.
    + rewrite filter_cons_True by done. do 2 f_equal.
      by rewrite filter_Forall_id.
Qed.

(** X18. Whatever the connections, in the events of [start] every
    [send] is followed at once by the [close] of the same socket: no
    response is ever sent on a connection that is then kept open or
    written to again. *)
Theorem X18_send_is_followed_by_close `{UnorderedMapOrder}
    (os : WebServer.socket_setup) (script : list WebServer.accepted)
    (this : WebServer.t)
    (pre post : list WebServer.event) (s : Z) (d : list ascii)
    (Hsend : (WebServer.start os script this).1
             = pre ++ WebServer.EvSend s d :: post) :
  ∃ post', post = WebServer.EvClose s :: post'.
Proof.
  refine (send_then_close_split _ pre s d post _ Hsend).
  unfold WebServer.start.
  assert (∀ this1, send_then_close
            (WebServer.accept_loop (WebServer.routes this1) script).1)
    as Hloop by (intros; apply accept_loop_send_then_close).
  destruct (WebServer.initializeSocket os this) as [[this1 evs0] c] eqn:Ei.
  assert (send_then_close evs0) as H0.
  { unfold WebServer.initializeSocket in Ei.
    repeat (destruct (_ =? _) in Ei; [by simplify_eq|]). by simplify_eq. }
  destruct c as [|e].
  - specialize (Hloop (WebServer.set_running true this1)).
    destruct (WebServer.accept_loop _ script) as [evs1 [|e]];
      cbn [fst] in *.
    + by apply send_then_close_app.
    + pose proof (close_server_socket_events
                    (WebServer.set_running true this1)) as Hc.
      destruct (WebServer.close_server_socket _) as [this2 evs2].
      cbn [fst snd] in *.
      repeat apply send_then_close_app; done.
  - pose proof (close_server_socket_events this1) as Hc.
    destruct (WebServer.close_server_socket this1) as [this2 evs2].
    cbn [fst snd] in *.
    repeat apply send_then_close_app; done.
Qed.

Lemma X18_witness :
  ∃ post', [WebServer.EvClose 4] = WebServer.EvClose 4 :: post'.
Proof.
  apply (X18_send_is_followed_by_close sample_setup
           [sample_connection 4 (Some (lit "GET /nope HTTP/1.1"
                                       ++ [CR; LF; CR; LF]))]
           (main_routes (WebServer.ctor 8080 0))
           [WebServer.EvStarted 8080;
            WebServer.EvClientConnected (lit "127.0.0.1");
            WebServer.EvRecv 4 8191]
           [WebServer.EvClose 4] 4
           (HTTPResponse.toString
              (WebServer.respond_not_found HTTPResponse.ctor))).
  by vm_compute.
Defined.

(** X19. When the setup succeeds and [parse] returns on the request of
    every connection that delivers one, [start] does not return: after
    the last connection of the script the loop is waiting in [accept],
    and the socket of every accepted connection has been closed. *)
Theorem X19_loop_keeps_accepting `{UnorderedMapOrder}
    (os : WebServer.socket_setup) (script : list WebServer.accepted)
    (this : WebServer.t)
    (Hos : setup_ok os)
    (Hparse : Forall (fun c =>
                0 < (WebServer.receive c).1 →
                (HTTPRequest.parse (WebServer.request_str_of c)
                                   HTTPRequest.ctor).2 = Returned) script) :
  (WebServer.start os script this).2 = None
  ∧ ∀ c, c ∈ script → accepted_ok c →
         WebServer.EvClose (WebServer.client_socket c)
         ∈ (WebServer.start os script this).1.
Proof.
  assert ((WebServer.accept_loop (WebServer.routes this) script).2
          = WebServer.Accepting
          ∧ ∀ c, c ∈ script → accepted_ok c →
                 WebServer.EvClose (WebServer.client_socket c)
                 ∈ (WebServer.accept_loop (WebServer.routes this) script).1)
    as [Hst Hclosed].
  { induction Hparse as [|c script Hc _ [IH1 IH2]].
    - split; [done|]. intros c Hin. by apply elem_of_nil in Hin.
    - cbn [WebServer.accept_loop].
      destruct (Z.eqb_spec (WebServer.client_socket c)
                  WebServer.INVALID_SOCKET) as [E|N].
      + destruct (WebServer.accept_loop _ script) as [evs st].
        cbn [fst snd] in *. split; [done|].
        intros c' Hin Hok. apply elem_of_cons in Hin as [-> | Hin]; [done|].
        apply elem_of_cons. right. by apply IH2.
      + destruct (serve_returned (WebServer.routes this) c Hc) as [Hr Hin].
        destruct (WebServer.serve _ c) as [evs1 [|e]]; [|done].
        destruct (WebServer.accept_loop _ script) as [evs st].
        cbn [fst snd] in *. split; [done|].
        intros c' Hin' Hok. apply elem_of_cons. right. apply elem_of_app.
        apply elem_of_cons in Hin' as [-> | Hin']; [by left|].
        right. by apply IH2. }
  unfold WebServer.start. rewrite (initializeSocket_ok _ _ Hos).
  cbn [WebServer.routes WebServer.set_running WebServer.set_server_socket].
  destruct (WebServer.accept_loop _ script) as [evs [|e]]; [|done].
  cbn [fst snd] in *. split; [done|].
  intros c Hin Hok. apply elem_of_app. right. by apply Hclosed.
Qed.

Lemma X19_witness :
  (WebServer.start sample_setup
     [sample_connection 4 (Some request_root); sample_connection 5 None]
     (main_routes (WebServer.ctor 8080 0))).2 = None.
Proof.
  refine (proj1 (X19_loop_keeps_accepting sample_setup
    [sample_connection 4 (Some request_root); sample_connection 5 None]
    (main_routes (WebServer.ctor 8080 0)) _ _)).
  - unfold setup_ok. by vm_compute.
  - repeat constructor; intros _; by vm_compute.
Defined.

(** X20. A request that fits the read, on which [parse] returns and
    whose path is registered, makes the handler run once, on the parsed
    request and a fresh default response, with the file system of that
    moment; what the handler leaves is serialised and sent, and the
    connection is closed. *)
Theorem X20_registered_path_is_handled `{UnorderedMapOrder}
    (rs : gmap (list ascii) WebServer.handler) (c : WebServer.accepted)
    (q : list ascii) (request : HTTPRequest.t) (h : WebServer.handler)
    (Hq : WebServer.pending c = Some q) (Hne : q ≠ [])
    (Hlen : (length q ≤ recv_limit)%nat)
    (Hparse : HTTPRequest.parse q HTTPRequest.ctor = (request, Returned))
    (Hroute : rs !! HTTPRequest.path request = Some h) :
  WebServer.serve rs c
  = ([WebServer.EvRecv (WebServer.client_socket c) 8191;
      WebServer.EvHandler (HTTPRequest.path request);
      WebServer.EvSend (WebServer.client_socket c)
        (HTTPResponse.toString
           (h (WebServer.files c) request HTTPResponse.ctor));
      WebServer.EvClose (WebServer.client_socket c)], Returned).
Proof.
  rewrite serve_unfold, (request_str_of_pending _ _ Hq),
    (receive_pending _ _ Hq).
  rewrite take_ge by done. cbn [fst].
  destruct (Z.ltb_spec 0 (Z.of_nat (length q))) as [_|Hz].
  - rewrite Hparse. unfold WebServer.dispatch. by rewrite Hroute.
  - destruct q; [done|]. simpl in Hz. lia.
Qed.

Lemma X20_witness :
  let c := sample_connection 4 (Some request_root) in
  let request := (HTTPRequest.parse request_root HTTPRequest.ctor).1 in
  let h : WebServer.handler :=
    fun _ _ res =>
      HTTPResponse.setContent
        (lit "<html><body><h1>Hello, World!</h1><p>Welcome to my C++ Web Server</p></body></html>")
        HTTPResponse.default_content_type res in
  WebServer.serve
    (WebServer.routes (main_routes (WebServer.ctor 8080 0))) c
  = ([WebServer.EvRecv (WebServer.client_socket c) 8191;
      WebServer.EvHandler (HTTPRequest.path request);
      WebServer.EvSend (WebServer.client_socket c)
        (HTTPResponse.toString
           (h (WebServer.files c) request HTTPResponse.ctor));
      WebServer.EvClose (WebServer.client_socket c)], Returned).
Proof.
  intros c request h.
  refine (X20_registered_path_is_handled
            (WebServer.routes (main_routes (WebServer.ctor 8080 0)))
            c request_root request h _ _ _ _ _).
  - reflexivity.
  - by vm_compute.
  - by apply Nat.leb_le.
  - by vm_compute.
  - assert (HTTPRequest.path request = lit "/") as -> by (by vm_compute).
    unfold main_routes, WebServer.addStaticFileRoute, WebServer.addRoute.
    cbn [WebServer.routes WebServer.ctor].
    rewrite !lookup_insert_ne by done. apply lookup_insert_eq.
Defined.

(** X21. With the routes that [main] registers, a request is answered
    with status 200 when its path is [/] or [/api/data], or is
    [/index.html] while [public/index.html] can be opened, and with
    status 404 in every other case. *)
Theorem X21_main_routes_status (port0 x : Z) (fs : WebServer.filesystem)
    (req : HTTPRequest.t) :
  HTTPResponse.status_code
    (WebServer.dispatch
       (WebServer.routes (main_routes (WebServer.ctor port0 x)))
       fs req HTTPResponse.ctor).1
  = if decide (HTTPRequest.path req = lit "/"
               ∨ HTTPRequest.path req = lit "/api/data"
               ∨ (HTTPRequest.path req = lit "/index.html"
                  ∧ is_Some (fs (lit "public/index.html"))))
    then 200 else 404.
Proof.
  unfold WebServer.dispatch, main_routes, WebServer.addStaticFileRoute,
    WebServer.addRoute.
  cbn [WebServer.routes WebServer.ctor WebServer.server_socket
       WebServer.port WebServer.running].
  rewrite !lookup_insert, lookup_empty.
  destruct (decide (lit "/index.html" = HTTPRequest.path req)) as [E1|N1].
  - cbn [fst]. unfold WebServer.static_file_handler.
    destruct (fs (lit "public/index.html")) as [content|] eqn:Ef.
    + rewrite decide_True; [done|]. right; right. by split.
    + rewrite decide_False; [done|].
      intros [E | [E | [_ [? E]]]]; [| |done]; by rewrite <- E1 in E.
  - destruct (decide (lit "/api/data" = HTTPRequest.path req)) as [E2|N2].
    + cbn [fst]. rewrite decide_True; [done|]. right; by left.
    + destruct (decide (lit "/" = HTTPRequest.path req)) as [E3|N3].
      * cbn [fst]. rewrite decide_True; [done|]. by left.
      * cbn [fst]. rewrite decide_False; [done|].
        intros [E | [E | [E _]]]; by symmetry in E.
Qed.

(** X22. [hasExtension(str, ext)] holds exactly when [ext] is a suffix
    of [str], compared character by character: never when [str] is
    shorter than [ext], always for the empty extension and for a path
    that is the extension itself; and a directory in front of a file
    name at least as long as the extension changes nothing. *)
Theorem X22_hasExtension_is_suffix_test (str ext : list ascii) :
  (WebServer.hasExtension str ext = true ↔ ext `suffix_of` str)
  ∧ ((length str < length ext)%nat → WebServer.hasExtension str ext = false)
  ∧ WebServer.hasExtension str [] = true
  ∧ WebServer.hasExtension ext ext = true
  ∧ (∀ dir, (length ext ≤ length str)%nat →
            WebServer.hasExtension (dir ++ str) ext
            = WebServer.hasExtension str ext).
Proof.
  split; [|split; [|split; [|split]]].
  - rewrite hasExtension_suffix. apply bool_decide_eq_true.
  - intros Hlt. apply hasExtension_false. intros Hs.
    apply suffix_length in Hs. lia.
  - apply hasExtension_true. apply suffix_nil.
  - by apply hasExtension_true.
  - intros dir Hle. unfold WebServer.hasExtension.
    rewrite length_app.
    destruct (Nat.ltb_spec (length dir + length str) (length ext)); [lia|].
    destruct (Nat.ltb_spec (length str) (length ext)); [lia|].
    rewrite (drop_app_ge dir) by lia.
    by replace (length dir + length str - length ext - length dir)%nat
      with (length str - length ext)%nat by lia.
Qed.

(** X23. Connections are handled one after the other and independently:
    the events of a run over two batches of connections are those of
    the first batch followed by those of the second, run on its own,
    unless the first batch ends the loop by an exception, in which case
    the second is never looked at. *)
Theorem X23_accept_loop_composes `{UnorderedMapOrder}
    (rs : gmap (list ascii) WebServer.handler)
    (before after : list WebServer.accepted) :
  WebServer.accept_loop rs (before ++ after)
  = match (WebServer.accept_loop rs before).2 with
    | WebServer.Accepting =>
        ((WebServer.accept_loop rs before).1
         ++ (WebServer.accept_loop rs after).1,
         (WebServer.accept_loop rs after).2)
    | WebServer.Escaped e => WebServer.accept_loop rs before
    end.
Proof.
  induction before as [|c before IH]; cbn [app WebServer.accept_loop].
  - cbn [fst snd app]. by destruct (WebServer.accept_loop rs after).
  - destruct (WebServer.client_socket c =? WebServer.INVALID_SOCKET).
    + rewrite IH. destruct (WebServer.accept_loop rs before) as [evs [|e]];
        cbn [fst snd]; done.
    + destruct (WebServer.serve rs c) as [evs1 [|e]]; [|done].
      rewrite IH. destruct (WebServer.accept_loop rs before) as [evs [|e]];
        cbn [fst snd]; [|done].
      destruct (WebServer.accept_loop rs after) as [evs' st'].
      cbn [fst snd]. app_norm. reflexivity.
Qed.

(** X24. For every input: whenever [parse] returns and the parsed
    headers hold a [Content-Length], its value was accepted by
    [std::stoi] as a number that is not negative, and the body has
    exactly that many characters, however many the input had left. *)
Theorem X24_body_length_is_declared_length
    (request_str x : list ascii)
    (Hret : (HTTPRequest.parse request_str HTTPRequest.ctor).2 = Returned)
    (Hcl : HTTPRequest.headers
             (HTTPRequest.parse request_str HTTPRequest.ctor).1
           !! lit "Content-Length" = Some x) :
  ∃ N : nat,
    stoi x = inr (Z.of_nat N)
    ∧ length (HTTPRequest.body
                (HTTPRequest.parse request_str HTTPRequest.ctor).1) = N.
Proof.
  revert Hret Hcl. rewrite parse_steps. cbv zeta.
  set (rl := HTTPRequest.parse_request_line _ _ _).
  set (hl := HTTPRequest.parse_headers _ _ _).
  set (this := HTTPRequest.mk _ _ _ _ _).
  destruct (parse_body_fields hl.1 this) as (_ & _ & _ & ->).
  unfold HTTPRequest.parse_body, HTTPRequest.vector_char_ctor.
  intros Hret Hcl.
  rewrite Hcl in *. destruct (stoi x) as [e|n]; [done|].
  destruct (Z.ltb_spec n 0) as [Hneg|Hpos]; [done|].
  exists (Z.to_nat n). split; [by rewrite Z2Nat.id|].
  destruct (istream_read hl.1 (Z.to_nat n)) as [strm got] eqn:Er.
  assert (length got ≤ Z.to_nat n)%nat as Hgot.
  { unfold istream_read in Er. destruct (good hl.1); simplify_eq/=.
    - rewrite length_take. lia.
    - lia. }
  cbn [fst HTTPRequest.body]. unfold store_prefix.
  rewrite length_take, length_app, length_drop, length_replicate. lia.
Qed.

Lemma X24_witness :
  ∃ N : nat,
    stoi (lit "7") = inr (Z.of_nat N)
    ∧ length (HTTPRequest.body
                (HTTPRequest.parse
                   (lit "PUT /x HTTP/1.1" ++ [LF] ++ lit "Content-Length: 7"
                    ++ [LF; LF] ++ lit "abc")
                   HTTPRequest.ctor).1) = N.
Proof.
  apply (X24_body_length_is_declared_length
           (lit "PUT /x HTTP/1.1" ++ [LF] ++ lit "Content-Length: 7"
            ++ [LF; LF] ++ lit "abc") (lit "7")).
  - by vm_compute.
  - by vm_compute.
Defined.
